(** * CineAI: caching and recommendation-resolution pipeline

    A shallow embedding of the server code of CineAI
    (server/routes/recommendations.js, server/routes/movies.js and
    database/schema.sql) together with the properties stated for it.

    JavaScript strings are sequences of UTF-16 code units; they are modelled
    as lists of code units so that [length], [trim] and the regular
    expressions count what the runtime counts. *)

From Stdlib Require Import ZArith NArith String Ascii Lia.
From stdpp Require Import gmap list sorting.

Local Open Scope N_scope.
Set Warnings "-register-all".

(** ** JavaScript strings *)

Module JsString.

Definition jsstring := list N.

(** An ASCII literal of the source as a list of code units. *)
Definition lit (s : string) : jsstring := N_of_ascii <$> list_ascii_of_string s.

Definition between (lo hi c : N) : bool := (lo <=? c) && (c <=? hi).

(** [\d] *)
Definition isDigit (c : N) : bool := between 48 57 c.
Definition isUpper (c : N) : bool := between 65 90 c.
Definition isLower (c : N) : bool := between 97 122 c.
(** [[a-zA-Z]] *)
Definition isAlpha (c : N) : bool := isUpper c || isLower c.
(** [\w] is [[A-Za-z0-9_]] *)
Definition isWord (c : N) : bool := isAlpha c || isDigit c || (c =? 95).

(** [\s]: the WhiteSpace and LineTerminator code points of ECMAScript;
    [String.prototype.trim] strips the same set. *)
Definition isSpace (c : N) : bool :=
  between 9 13 c || (c =? 32) || (c =? 160) || (c =? 5760)
  || between 8192 8202 c || (c =? 8232) || (c =? 8233) || (c =? 8239)
  || (c =? 8287) || (c =? 12288) || (c =? 65279).

(** [[\n\r]] *)
Definition isNewline (c : N) : bool := (c =? 10) || (c =? 13).

Definition strEqb (a b : jsstring) : bool := bool_decide (a = b).

(** [Array.prototype.includes] on an array of strings. *)
Definition includes (l : list jsstring) (x : jsstring) : bool := existsb (strEqb x) l.

Fixpoint trimStart (s : jsstring) : jsstring :=
  match s with
  | c :: t => if isSpace c then trimStart t else s
  | [] => []
  end.

(** [String.prototype.trim] *)
Definition trim (s : jsstring) : jsstring := rev (trimStart (rev (trimStart s))).

(** The ASCII letters case-folded, as the [i] flag compares them: a code unit
    outside ASCII never canonicalizes to an ASCII letter, so an ASCII letter
    of a pattern matches exactly its two cases. *)
Definition asciiUpper (c : N) : N := if isLower c then c - 32 else c.
Definition asciiLower (c : N) : N := if isUpper c then c + 32 else c.

End JsString.
Export JsString.

(** ** Regular expressions

    The fragment of ECMAScript regular expressions the source uses:
    character classes, greedy quantifiers over a class, concatenation,
    alternation, one capture group, [^] and [\b]. The matcher is the
    backtracking matcher of the language definition, in continuation
    style: a quantifier tries the longest repetition first and gives
    characters back one at a time until the rest of the pattern matches. *)

Module Regex.

Inductive re : Type :=
  | REps
  | RCls (p : N → bool)
  | RCat (a b : re)
  | RAlt (a b : re)
  | RGreedy (min : nat) (p : N → bool)
  | RGroup (a : re)
  | RBol
  | RWordB.

(** [consumed] holds the text before the current position, last code unit
    first; [remaining] the text from the current position on. *)
Record MState := mkMState {
  consumed : list N;
  remaining : list N;
  cap1 : option jsstring
}.

Definition Cont := MState → option MState.

Fixpoint greedy (p : N → bool) (min n : nat) (bef aft : list N)
    (cap : option jsstring) (k : Cont) : option MState :=
  let stop := if (min <=? n)%nat then k (mkMState bef aft cap) else None in
  match aft with
  | c :: t =>
      if p c then
        match greedy p min (S n) (c :: bef) t cap k with
        | Some r => Some r
        | None => stop
        end
      else stop
  | [] => stop
  end.

Definition isWordAt (l : list N) : bool :=
  match l with c :: _ => isWord c | [] => false end.

Fixpoint m (r : re) (st : MState) (k : Cont) : option MState :=
  match r with
  | REps => k st
  | RCls p =>
      match remaining st with
      | c :: t => if p c then k (mkMState (c :: consumed st) t (cap1 st)) else None
      | [] => None
      end
  | RCat a b => m a st (λ st', m b st' k)
  | RAlt a b =>
      match m a st k with
      | Some r => Some r
      | None => m b st k
      end
  | RGreedy min p => greedy p min 0 (consumed st) (remaining st) (cap1 st) k
  | RGroup a =>
      m a st (λ st',
        let n := (length (consumed st') - length (consumed st))%nat in
        k (mkMState (consumed st') (remaining st')
             (Some (rev (take n (consumed st'))))))
  | RBol => match consumed st with [] => k st | _ :: _ => None end
  | RWordB =>
      if xorb (isWordAt (consumed st)) (isWordAt (remaining st)) then k st else None
  end.

(** Every way through [r] closes capture group 1. *)
Fixpoint captures (r : re) : bool :=
  match r with
  | RGroup _ => true
  | RCat a b => captures a || captures b
  | RAlt a b => captures a && captures b
  | _ => false
  end.

(** One match: where it starts, how long it is, and capture group 1. *)
Record Match := mkMatch { mstart : nat; mlen : nat; mcap : option jsstring }.

Definition matchAt (r : re) (bef aft : list N) : option Match :=
  match m r (mkMState bef aft None) Some with
  | Some st' =>
      Some (mkMatch (length bef) (length (consumed st') - length bef) (cap1 st'))
  | None => None
  end.

(** All matches of a global regular expression, left to right, as [matchAll]
    and a global [replace] find them: after a match the search resumes at its
    end (one further when the match is empty). [skip] counts the positions
    still inside the previous match. *)
Fixpoint scan (r : re) (skip : nat) (bef aft : list N) : list Match :=
  let here := match skip with O => matchAt r bef aft | S _ => None end in
  match here with
  | Some mt =>
      mt :: match aft with
            | c :: t => scan r (mlen mt - 1) (c :: bef) t
            | [] => []
            end
  | None =>
      match aft with
      | c :: t => scan r (skip - 1) (c :: bef) t
      | [] => []
      end
  end.

Definition matches (r : re) (text : jsstring) : list Match := scan r 0 [] text.

(** [[...text.matchAll(r)].map(match => match[1])] *)
Definition matchAll1 (r : re) (text : jsstring) : list (option jsstring) :=
  mcap <$> matches r text.

(** Deletes the matched ranges; [pos] is the index of the head of [text]. *)
Fixpoint removeRanges (ms : list Match) (pos : nat) (text : jsstring) : jsstring :=
  match ms with
  | [] => text
  | mt :: ms' =>
      let keep := (mstart mt - pos)%nat in
      take keep text
        ++ removeRanges ms' (mstart mt + mlen mt) (drop (keep + mlen mt) text)
  end.

(** [text.replace(r, '')] for [r] without the [g] flag: the first match. *)
Definition removeFirst (r : re) (text : jsstring) : jsstring :=
  removeRanges (take 1 (matches r text)) 0 text.

(** [text.replace(r, '')] for [r] with the [g] flag: every match. *)
Definition removeAll (r : re) (text : jsstring) : jsstring :=
  removeRanges (matches r text) 0 text.

(** The pieces of [text] between the matches. *)
Fixpoint pieces (ms : list Match) (pos : nat) (text : jsstring) : list jsstring :=
  match ms with
  | [] => [text]
  | mt :: ms' =>
      let keep := (mstart mt - pos)%nat in
      take keep text :: pieces ms' (mstart mt + mlen mt) (drop (keep + mlen mt) text)
  end.

(** [text.split(r)] for a separator [r] that never matches the empty
    string; the empty text splits into one empty piece. *)
Definition split (r : re) (text : jsstring) : list jsstring :=
  pieces (matches r text) 0 text.

(** Helpers to write patterns. *)
Definition chr (c : N) : re := RCls (N.eqb c).
Definition chrCI (c : N) : re := RCls (λ x, asciiUpper x =? asciiUpper c).
Definition notCls (p : N → bool) : N → bool := λ c, negb (p c).
Definition oneOf (l : list N) : N → bool := λ c, existsb (N.eqb c) l.

Fixpoint cat (l : list re) : re :=
  match l with
  | [] => REps
  | [a] => a
  | a :: t => RCat a (cat t)
  end.

(** A literal, case-sensitive or under the [i] flag. *)
Definition word (s : string) : re := cat (chr <$> lit s).
Definition wordCI (s : string) : re := cat (chrCI <$> lit s).

Definition star := RGreedy 0.
Definition plus := RGreedy 1.

End Regex.
Export Regex.

(** ** Fallback title extraction (recommendations.js, extractMovieTitlesFromText) *)

Module Titles.

Definition notQuote : N → bool := notCls (N.eqb 34).
Definition notNewline : N → bool := notCls isNewline.
(** [[-*•]] *)
Definition isBullet : N → bool := oneOf [45; 42; 8226].

(** [\s*([^\n\r]+)], the tail shared by four of the patterns. *)
Definition restOfLine : list re := [star isSpace; RGroup (plus notNewline)].

(** [\(\d{4}\)] *)
Definition yearInParens : list re :=
  [chr 40; RCls isDigit; RCls isDigit; RCls isDigit; RCls isDigit; chr 41].

Definition patterns : list re :=
  [ cat [chr 34; RGroup (plus notQuote); chr 34];
    cat ([plus isDigit; chr 46] ++ restOfLine);
    cat (RCls isBullet :: restOfLine);
    cat (wordCI "Title:" :: restOfLine);
    cat (wordCI "Movie:" :: restOfLine);
    RGroup (cat ([RWordB; RCls isUpper; plus (λ c, isAlpha c || isSpace c)]
                 ++ yearInParens)) ].

(** [/^\d+\.\s*/] *)
Definition reNumbering : re := cat [RBol; plus isDigit; chr 46; star isSpace].
(** [/\(\d{4}\)/] *)
Definition reYear : re := cat yearInParens.
(** [/^(Title|Movie):\s*/gi] *)
Definition rePrefix : re :=
  cat [RBol; RGroup (RAlt (wordCI "Title") (wordCI "Movie")); chr 58; star isSpace].
(** [/[^\w\s\-:!?&.,]/g] *)
Definition reSpecial : re :=
  RCls (notCls (λ c, isWord c || isSpace c || oneOf [45; 58; 33; 63; 38; 46; 44] c)).
(** [/^[-*•]\s*/] *)
Definition reBullet : re := cat [RBol; RCls isBullet; star isSpace].
(** [/\n|\r\n/] *)
Definition reLineSep : re := RAlt (chr 10) (RCat (chr 13) (chr 10)).

Definition cleanTitle (match1 : jsstring) : jsstring :=
  let title := trim match1 in
  let title := removeFirst reNumbering title in
  let title := trim (removeFirst reYear title) in
  let title := removeAll rePrefix title in
  trim (removeAll reSpecial title).

(** [title.length > 2 && title.length < 100] *)
Definition plausible (title : jsstring) : bool :=
  (2 <? length title)%nat && (length title <? 100)%nat.

(** The body of the inner loop. Group 1 takes part in every match of each
    of the six patterns (lemma [match1_defined] below), so [match[1]] is
    always a string. *)
Definition addMatch (titles : list jsstring) (match1 : option jsstring) : list jsstring :=
  let title := cleanTitle (default [] match1) in
  if plausible title && negb (includes titles title) then titles ++ [title] else titles.

(** The loop over the patterns, with its [break] once five titles are in. *)
Fixpoint runPatterns (ps : list re) (text : jsstring) (titles : list jsstring)
    : list jsstring :=
  match ps with
  | [] => titles
  | pattern :: ps' =>
      let titles' := foldl addMatch titles (matchAll1 pattern text) in
      if (5 <=? length titles')%nat then titles' else runPatterns ps' text titles'
  end.

Definition patternTitles (text : jsstring) : list jsstring := runPatterns patterns text [].

Definition cleanLine (line : jsstring) : jsstring :=
  trim (removeFirst reBullet (removeFirst reNumbering line)).

(** The more aggressive approach: the non-empty lines, taken verbatim. *)
Fixpoint takeLines (lines : list jsstring) (titles : list jsstring) : list jsstring :=
  match lines with
  | [] => titles
  | line :: rest =>
      let titles' :=
        if plausible (cleanLine line) then titles ++ [cleanLine line] else titles in
      if (5 <=? length titles')%nat then titles' else takeLines rest titles'
  end.

Definition nonEmptyLines (text : jsstring) : list jsstring :=
  List.filter (λ line, (0 <? length (trim line))%nat) (split reLineSep text).

Definition lineTitles (text : jsstring) : list jsstring := takeLines (nonEmptyLines text) [].

Definition extractMovieTitlesFromText (text : jsstring) : list jsstring :=
  let titles := patternTitles text in
  let titles := match titles with [] => lineTitles text | _ :: _ => titles end in
  take 5 titles.

End Titles.
Export Titles.

(** ** JavaScript numbers and values *)

Module JsValue.

(** A Number is kept as the decimal it was read from: [Dec neg mant exp]
    stands for the double nearest to [(-1)^neg * mant * 10^exp]. Which
    double that is matters to the code only through truthiness, that is
    through whether it is zero. *)
Inductive JsNumber : Type :=
  | NaN
  | Infinity (neg : bool)
  | Dec (neg : bool) (mant : N) (exp : Z).

(** The nearest double is [+0] or [-0] exactly when the magnitude is at most
    [2^-1075], half the smallest subnormal (the tie rounds to even, to zero). *)
Definition isZero (n : JsNumber) : bool :=
  match n with
  | NaN | Infinity _ => false
  | Dec _ mant exp =>
      (mant =? 0)
      || ((exp <? 0)%Z && (Z.of_N mant * 2 ^ 1075 <=? 10 ^ (- exp))%Z)
  end.

Definition truthyNumber (n : JsNumber) : bool :=
  match n with
  | NaN => false
  | _ => negb (isZero n)
  end.

Inductive JsValue : Type :=
  | JUndefined
  | JNull
  | JBool (b : bool)
  | JNum (n : JsNumber)
  | JStr (s : jsstring)
  | JArr (items : list JsValue)
  | JObj (props : list (jsstring * JsValue)).

(** ToBoolean *)
Definition truthy (v : JsValue) : bool :=
  match v with
  | JUndefined | JNull => false
  | JBool b => b
  | JNum n => truthyNumber n
  | JStr s => negb (strEqb s [])
  | JArr _ | JObj _ => true
  end.

(** [a || b] *)
Definition orElse (a b : JsValue) : JsValue := if truthy a then a else b.

(** [a && b] *)
Definition andThen (a b : JsValue) : JsValue := if truthy a then b else a.

(** The own property [name] of an object built by [JSON.parse]: properties
    are kept in the order of the text, a later duplicate key wins. *)
Fixpoint ownProp (props : list (jsstring * JsValue)) (name : jsstring) : option JsValue :=
  match props with
  | [] => None
  | (k, v) :: rest =>
      match ownProp rest name with
      | Some v' => Some v'
      | None => if strEqb k name then Some v else None
      end
  end.

(** What the code can throw. *)
Inductive Exn : Type :=
  | TypeError
  | SyntaxError
  | Error (message : jsstring).

(** [v.name] for the property names the source reads ([movies], [title],
    [recommendations], ...): none of them is inherited from a prototype, so
    on a number, boolean, string or array the read gives [undefined]; on
    [null] and [undefined] it throws. *)
Definition getProp (v : JsValue) (name : jsstring) : Exn + JsValue :=
  match v with
  | JUndefined | JNull => inl TypeError
  | JObj props => inr (default JUndefined (ownProp props name))
  | _ => inr JUndefined
  end.

(** [Array.isArray] *)
Definition isArray (v : JsValue) : bool :=
  match v with JArr _ => true | _ => false end.

End JsValue.
Export JsValue.

(** ** parseInt and parseFloat *)

Module Parse.

Definition digitVal (c : N) : N := c - 48.

Definition hexVal (c : N) : option N :=
  if isDigit c then Some (c - 48)
  else if between 97 102 c then Some (c - 87)
  else if between 65 70 c then Some (c - 55)
  else None.

(** The value of the longest prefix of decimal digits, how many digits it
    has, and what follows. *)
Fixpoint digits (acc : N) (n : nat) (s : jsstring) : N * nat * jsstring :=
  match s with
  | c :: t => if isDigit c then digits (10 * acc + digitVal c) (S n) t else (acc, n, s)
  | [] => (acc, n, s)
  end.

Fixpoint hexDigits (acc : N) (n : nat) (s : jsstring) : N * nat * jsstring :=
  match s with
  | c :: t =>
      match hexVal c with
      | Some d => hexDigits (16 * acc + d) (S n) t
      | None => (acc, n, s)
      end
  | [] => (acc, n, s)
  end.

(** An optional sign. *)
Definition sign (s : jsstring) : bool * jsstring :=
  match s with
  | 45 :: t => (true, t)
  | 43 :: t => (false, t)
  | _ => (false, s)
  end.

(** [parseInt(string)] with no radix: leading white space is skipped, a sign
    and a [0x] prefix are honoured, the digits that follow are read and
    anything after them is ignored; no digit at all gives [NaN]. *)
Definition parseIntStr (s : jsstring) : JsNumber :=
  let '(neg, s1) := sign (trimStart s) in
  let '(v, n, _) :=
    match s1 with
    | 48 :: 120 :: t | 48 :: 88 :: t => hexDigits 0 0 t
    | _ => digits 0 0 s1
    end in
  match n with
  | O => NaN
  | S _ => Dec neg v 0
  end.

(** The exponent part [[eE][+-]?\d+] when there is one. *)
Definition exponent (s : jsstring) : Z :=
  match s with
  | c :: t =>
      if (c =? 101) || (c =? 69) then
        let '(eneg, t1) := sign t in
        let '(e, n, _) := digits 0 0 t1 in
        match n with
        | O => 0%Z
        | S _ => if eneg then (- Z.of_N e)%Z else Z.of_N e
        end
      else 0%Z
  | [] => 0%Z
  end.

(** [parseFloat(string)]: the longest prefix that is a decimal literal. *)
Definition parseFloatStr (s : jsstring) : JsNumber :=
  let '(neg, s1) := sign (trimStart s) in
  if bool_decide (take 8 s1 = lit "Infinity") then Infinity neg
  else
    let '(ip, ni, s2) := digits 0 0 s1 in
    match s2 with
    | 46 :: s3 =>
        let '(m, nf, s4) := digits ip 0 s3 in
        match ni, nf with
        | O, O => NaN
        | _, _ => Dec neg m (exponent s4 - Z.of_nat nf)
        end
    | _ =>
        match ni with
        | O => NaN
        | S _ => Dec neg ip (exponent s2)
        end
    end.

(** A field of a provider payload: a string, or missing. *)
Definition Field := option jsstring.

(** [parseInt(x)] and [parseFloat(x)] on a field: a missing field is first
    turned into the string [undefined], which holds no digit. *)
Definition parseInt (x : Field) : JsNumber :=
  match x with Some s => parseIntStr s | None => NaN end.

Definition parseFloat (x : Field) : JsNumber :=
  match x with Some s => parseFloatStr s | None => NaN end.

End Parse.
Export Parse.

(** ** JSON.parse

    A lexer and a parser that each consume their input one element at a
    time, so both are total by construction: the lexer is a state machine
    over code units, the parser a stack machine over tokens. [None] is the
    [SyntaxError] of [JSON.parse]. *)

Module Json.

Inductive token : Type :=
  | TLBrace | TRBrace | TLBrack | TRBrack | TColon | TComma
  | TStr (s : jsstring)
  | TNum (n : JsNumber)
  | TTrue | TFalse | TNull.

(** Where the lexer is inside a number: an optional minus, then a zero or
    a digit sequence not starting with zero, then an optional fraction (a dot
    and digits) and an optional exponent (e, an optional sign, digits). *)
Inductive NumPhase : Type :=
  | NMinus | NZero | NInt | NDot | NFrac | NE | NESign | NExp.

Record NumAcc := mkNumAcc {
  nneg : bool; nmant : N; nfrac : nat; neneg : bool; nexp : N
}.

Inductive Mode : Type :=
  | MStart
  | MStr (acc : list N)
  | MEsc (acc : list N)
  | MUni (acc : list N) (more : nat) (v : N)
  | MNum (ph : NumPhase) (a : NumAcc)
  | MLit (rest : list N) (tok : token).

Definition numValue (a : NumAcc) : JsNumber :=
  Dec (nneg a) (nmant a)
    ((if neneg a then - Z.of_N (nexp a) else Z.of_N (nexp a)) - Z.of_nat (nfrac a))%Z.

Definition numFinal (ph : NumPhase) : bool :=
  match ph with
  | NZero | NInt | NFrac | NExp => true
  | _ => false
  end.

(** The next phase when [c] continues the number, [None] when it does not. *)
Definition numStep (ph : NumPhase) (a : NumAcc) (c : N) : option (NumPhase * NumAcc) :=
  let addMant := mkNumAcc (nneg a) (10 * nmant a + digitVal c) (nfrac a) (neneg a) (nexp a) in
  let addFrac := mkNumAcc (nneg a) (10 * nmant a + digitVal c) (S (nfrac a)) (neneg a) (nexp a) in
  let addExp := mkNumAcc (nneg a) (nmant a) (nfrac a) (neneg a) (10 * nexp a + digitVal c) in
  let isE := (c =? 101) || (c =? 69) in
  match ph with
  | NMinus =>
      if c =? 48 then Some (NZero, a)
      else if isDigit c then Some (NInt, addMant) else None
  | NZero =>
      if c =? 46 then Some (NDot, a) else if isE then Some (NE, a) else None
  | NInt =>
      if isDigit c then Some (NInt, addMant)
      else if c =? 46 then Some (NDot, a)
      else if isE then Some (NE, a) else None
  | NDot => if isDigit c then Some (NFrac, addFrac) else None
  | NFrac =>
      if isDigit c then Some (NFrac, addFrac)
      else if isE then Some (NE, a) else None
  | NE =>
      if c =? 43 then Some (NESign, a)
      else if c =? 45 then
        Some (NESign, mkNumAcc (nneg a) (nmant a) (nfrac a) true (nexp a))
      else if isDigit c then Some (NExp, addExp) else None
  | NESign => if isDigit c then Some (NExp, addExp) else None
  | NExp => if isDigit c then Some (NExp, addExp) else None
  end.

Definition isJsonSpace (c : N) : bool :=
  (c =? 32) || (c =? 9) || (c =? 10) || (c =? 13).

Definition numStart (neg : bool) : NumAcc := mkNumAcc neg 0 0 false 0.

(** The lexer between tokens, on [c]: the tokens it emits and the mode it
    goes to. *)
Definition startOn (c : N) : option (list token * Mode) :=
  if isJsonSpace c then Some ([], MStart)
  else if c =? 123 then Some ([TLBrace], MStart)
  else if c =? 125 then Some ([TRBrace], MStart)
  else if c =? 91 then Some ([TLBrack], MStart)
  else if c =? 93 then Some ([TRBrack], MStart)
  else if c =? 58 then Some ([TColon], MStart)
  else if c =? 44 then Some ([TComma], MStart)
  else if c =? 34 then Some ([], MStr [])
  else if c =? 45 then Some ([], MNum NMinus (numStart true))
  else if c =? 48 then Some ([], MNum NZero (numStart false))
  else if isDigit c then
    Some ([], MNum NInt (mkNumAcc false (digitVal c) 0 false 0))
  else if c =? 116 then Some ([], MLit (lit "rue") TTrue)
  else if c =? 102 then Some ([], MLit (lit "alse") TFalse)
  else if c =? 110 then Some ([], MLit (lit "ull") TNull)
  else None.

(** The character an escape [\c] stands for. *)
Definition escape (c : N) : option N :=
  if (c =? 34) || (c =? 92) || (c =? 47) then Some c
  else if c =? 98 then Some 8
  else if c =? 102 then Some 12
  else if c =? 110 then Some 10
  else if c =? 114 then Some 13
  else if c =? 116 then Some 9
  else None.

Fixpoint lexer (mode : Mode) (s : jsstring) : option (list token) :=
  match s with
  | [] =>
      match mode with
      | MStart => Some []
      | MNum ph a => if numFinal ph then Some [TNum (numValue a)] else None
      | _ => None
      end
  | c :: t =>
      match mode with
      | MStart =>
          match startOn c with
          | Some (toks, mode') => app toks <$> lexer mode' t
          | None => None
          end
      | MStr acc =>
          if c =? 34 then cons (TStr (rev acc)) <$> lexer MStart t
          else if c =? 92 then lexer (MEsc acc) t
          else if c <? 32 then None
          else lexer (MStr (c :: acc)) t
      | MEsc acc =>
          if c =? 117 then lexer (MUni acc 4 0) t
          else match escape c with
               | Some e => lexer (MStr (e :: acc)) t
               | None => None
               end
      | MUni acc more v =>
          match hexVal c with
          | Some d =>
              match more with
              | 1%nat => lexer (MStr ((16 * v + d) :: acc)) t
              | _ => lexer (MUni acc (pred more) (16 * v + d)) t
              end
          | None => None
          end
      | MNum ph a =>
          match numStep ph a c with
          | Some (ph', a') => lexer (MNum ph' a') t
          | None =>
              if numFinal ph then
                match startOn c with
                | Some (toks, mode') =>
                    app (TNum (numValue a) :: toks) <$> lexer mode' t
                | None => None
                end
              else None
          end
      | MLit rest tok =>
          match rest with
          | [x] => if c =? x then cons tok <$> lexer MStart t else None
          | x :: rest' => if c =? x then lexer (MLit rest' tok) t else None
          | [] => None
          end
      end
  end.

(** A container under construction, waiting for the value being read. *)
Inductive Ctx : Type :=
  | CArr (done : list JsValue)
  | CObj (done : list (jsstring * JsValue)) (key : jsstring).

Inductive PState : Type :=
  | SValue (stack : list Ctx)
  | SArrOpen (stack : list Ctx)
  | SObjOpen (stack : list Ctx)
  | SKey (done : list (jsstring * JsValue)) (stack : list Ctx)
  | SColon (done : list (jsstring * JsValue)) (key : jsstring) (stack : list Ctx)
  | SArrNext (done : list JsValue) (stack : list Ctx)
  | SObjNext (done : list (jsstring * JsValue)) (stack : list Ctx)
  | SDone (v : JsValue).

(** A finished value goes into the container on top of the stack. *)
Definition plug (v : JsValue) (stack : list Ctx) : PState :=
  match stack with
  | [] => SDone v
  | CArr done :: st => SArrNext (v :: done) st
  | CObj done key :: st => SObjNext ((key, v) :: done) st
  end.

Definition valueTok (stack : list Ctx) (tok : token) : option PState :=
  match tok with
  | TStr s => Some (plug (JStr s) stack)
  | TNum n => Some (plug (JNum n) stack)
  | TTrue => Some (plug (JBool true) stack)
  | TFalse => Some (plug (JBool false) stack)
  | TNull => Some (plug JNull stack)
  | TLBrack => Some (SArrOpen stack)
  | TLBrace => Some (SObjOpen stack)
  | _ => None
  end.

Definition pstep (st : PState) (tok : token) : option PState :=
  match st with
  | SValue stack => valueTok stack tok
  | SArrOpen stack =>
      match tok with
      | TRBrack => Some (plug (JArr []) stack)
      | _ => valueTok (CArr [] :: stack) tok
      end
  | SObjOpen stack =>
      match tok with
      | TRBrace => Some (plug (JObj []) stack)
      | TStr k => Some (SColon [] k stack)
      | _ => None
      end
  | SKey done stack =>
      match tok with
      | TStr k => Some (SColon done k stack)
      | _ => None
      end
  | SColon done k stack =>
      match tok with
      | TColon => Some (SValue (CObj done k :: stack))
      | _ => None
      end
  | SArrNext done stack =>
      match tok with
      | TComma => Some (SValue (CArr done :: stack))
      | TRBrack => Some (plug (JArr (rev done)) stack)
      | _ => None
      end
  | SObjNext done stack =>
      match tok with
      | TComma => Some (SKey done stack)
      | TRBrace => Some (plug (JObj (rev done)) stack)
      | _ => None
      end
  | SDone _ => None
  end.

Fixpoint prun (st : PState) (toks : list token) : option JsValue :=
  match toks with
  | [] => match st with SDone v => Some v | _ => None end
  | tok :: rest =>
      match pstep st tok with
      | Some st' => prun st' rest
      | None => None
      end
  end.

(** [JSON.parse(text)] *)
Definition JSON_parse (text : jsstring) : option JsValue :=
  match lexer MStart text with
  | Some toks => prun (SValue []) toks
  | None => None
  end.

End Json.
Export Json.

(** ** SHA-256 (crypto.createHash('sha256').update(text).digest('hex'))

    [update] encodes a string as UTF-8: a surrogate pair becomes one
    four-byte sequence, an unpaired surrogate the replacement character. *)

Module Sha256.

Definition isHighSurrogate (c : N) : bool := between 55296 56319 c.
Definition isLowSurrogate (c : N) : bool := between 56320 57343 c.

Definition cont (x : N) : N := 128 + x mod 64.

Definition utf8Point (cp : N) : list N :=
  if cp <? 128 then [cp]
  else if cp <? 2048 then [192 + cp / 64; cont cp]
  else if cp <? 65536 then [224 + cp / 4096; cont (cp / 64); cont cp]
  else [240 + cp / 262144; cont (cp / 4096); cont (cp / 64); cont cp].

Fixpoint utf8 (s : jsstring) : list N :=
  match s with
  | [] => []
  | c :: t =>
      if isHighSurrogate c then
        match t with
        | d :: t' =>
            if isLowSurrogate d
            then utf8Point (65536 + (c - 55296) * 1024 + (d - 56320)) ++ utf8 t'
            else utf8Point 65533 ++ utf8 t
        | [] => utf8Point 65533
        end
      else if isLowSurrogate c then utf8Point 65533 ++ utf8 t
      else utf8Point c ++ utf8 t
  end.

Definition w32 (x : N) : N := x mod 4294967296.
Definition rotr (n x : N) : N := N.lor (N.shiftr x n) (w32 (N.shiftl x (32 - n))).
Definition xor3 (a b c : N) : N := N.lxor a (N.lxor b c).
Definition not32 (x : N) : N := N.lxor x 4294967295.

Definition Ch (e f g : N) : N := N.lxor (N.land e f) (N.land (not32 e) g).
Definition Maj (a b c : N) : N := xor3 (N.land a b) (N.land a c) (N.land b c).
Definition Sigma0 (a : N) : N := xor3 (rotr 2 a) (rotr 13 a) (rotr 22 a).
Definition Sigma1 (e : N) : N := xor3 (rotr 6 e) (rotr 11 e) (rotr 25 e).
Definition sigma0 (x : N) : N := xor3 (rotr 7 x) (rotr 18 x) (N.shiftr x 3).
Definition sigma1 (x : N) : N := xor3 (rotr 17 x) (rotr 19 x) (N.shiftr x 10).

Definition K : list N :=
  [ 1116352408; 1899447441; 3049323471; 3921009573; 961987163; 1508970993;
    2453635748; 2870763221; 3624381080; 310598401; 607225278; 1426881987;
    1925078388; 2162078206; 2614888103; 3248222580; 3835390401; 4022224774;
    264347078; 604807628; 770255983; 1249150122; 1555081692; 1996064986;
    2554220882; 2821834349; 2952996808; 3210313671; 3336571891; 3584528711;
    113926993; 338241895; 666307205; 773529912; 1294757372; 1396182291;
    1695183700; 1986661051; 2177026350; 2456956037; 2730485921; 2820302411;
    3259730800; 3345764771; 3516065817; 3600352804; 4094571909; 275423344;
    430227734; 506948616; 659060556; 883997877; 958139571; 1322822218;
    1537002063; 1747873779; 1955562222; 2024104815; 2227730452; 2361852424;
    2428436474; 2756734187; 3204031479; 3329325298 ].

Definition H0 : list N :=
  [ 1779033703; 3144134277; 1013904242; 2773480762;
    1359893119; 2600822924; 528734635; 1541459225 ].

(** Big-endian bytes of [x], [n] of them. *)
Fixpoint bytesBE (n : nat) (x : N) : list N :=
  match n with
  | O => []
  | S n' => bytesBE n' (x / 256) ++ [x mod 256]
  end.

Definition pad (msg : list N) : list N :=
  let len := length msg in
  let zeros := ((64 - (len + 9) mod 64) mod 64)%nat in
  msg ++ [128] ++ replicate zeros 0 ++ bytesBE 8 (8 * N.of_nat len).

Fixpoint words (n : nat) (bs : list N) : list N :=
  match n with
  | O => []
  | S n' =>
      match bs with
      | a :: b :: c :: d :: rest =>
          (((a * 256 + b) * 256 + c) * 256 + d) :: words n' rest
      | _ => []
      end
  end.

Definition at_ (w : list N) (i : nat) : N := nth i w 0.

(** The message schedule: sixteen words extended to sixty-four. *)
Fixpoint schedule (n : nat) (w : list N) : list N :=
  match n with
  | O => w
  | S n' =>
      let i := length w in
      schedule n'
        (w ++ [w32 (sigma1 (at_ w (i - 2)) + at_ w (i - 7)
                    + sigma0 (at_ w (i - 15)) + at_ w (i - 16))])
  end.

Definition round (st : list N) (kw : N * N) : list N :=
  match st with
  | [a; b; c; d; e; f; g; h] =>
      let t1 := h + Sigma1 e + Ch e f g + fst kw + snd kw in
      let t2 := Sigma0 a + Maj a b c in
      [w32 (t1 + t2); a; b; c; w32 (d + t1); e; f; g]
  | _ => st
  end.

Definition compress (h : list N) (block : list N) : list N :=
  let w := schedule 48 (words 16 block) in
  let st := foldl round h (zip K w) in
  zip_with (λ x y, w32 (x + y)) h st.

Fixpoint blocks (n : nat) (bs : list N) (h : list N) : list N :=
  match n with
  | O => h
  | S n' => blocks n' (drop 64 bs) (compress h (take 64 bs))
  end.

Definition hexDigit (d : N) : N := if d <? 10 then 48 + d else 87 + d.

Definition hexByte (b : N) : jsstring := [hexDigit (b / 16); hexDigit (b mod 16)].

Definition sha256Bytes (msg : list N) : list N :=
  let padded := pad msg in
  blocks (length padded / 64) padded H0 ≫= bytesBE 4.

Definition sha256hex (text : jsstring) : jsstring :=
  sha256Bytes (utf8 text) ≫= hexByte.

End Sha256.
Export Sha256.

(** ** The provider payload and its normalization (formatMovieData) *)

Module Omdb.

(** A reply of the metadata provider. Every field of the provider's
    contract is a string; a field the reply does not carry reads as
    [undefined]. *)
Record OmdbData := mkOmdbData {
  Response : Field; imdbID : Field; Title : Field; Year : Field;
  Genre : Field; Director : Field; Actors : Field; Plot : Field;
  Poster : Field; imdbRating : Field; Runtime : Field; Language : Field;
  Country : Field; Rated : Field; Released : Field; Awards : Field
}.

(** A value handed to the database driver as a bind parameter, and a value
    of a column. *)
Inductive Bind : Type :=
  | BUndefined
  | BNull
  | BStr (s : jsstring)
  | BNum (n : JsNumber).

Definition ofField (x : Field) : Bind :=
  match x with Some s => BStr s | None => BUndefined end.

(** [x || null] on a number *)
Definition numOrNull (n : JsNumber) : Bind :=
  if truthyNumber n then BNum n else BNull.

(** [x || 'fallback'] on a field: a missing or empty field is falsy. *)
Definition fieldOr (x : Field) (fallback : string) : Bind :=
  match x with
  | Some (c :: t) => BStr (c :: t)
  | _ => BStr (lit fallback)
  end.

(** [omdbData.Poster !== 'N/A' ? omdbData.Poster : null] *)
Definition posterOf (x : Field) : Bind :=
  if bool_decide (x = Some (lit "N/A")) then BNull else ofField x.

(** The twelve columns the code writes to [movies_cache]. *)
Record Columns := mkColumns {
  imdb_id : Field; title : Field; year : Bind; genre : Bind;
  director : Bind; actors : Bind; plot : Bind; poster_url : Bind;
  imdb_rating : Bind; runtime : Bind; language : Bind; country : Bind
}.

(** The object [formatMovieData] returns: the twelve column values, and in
    recommendations.js three more properties and, once the caller has set
    it, [ai_reason]. *)
Record MovieData := mkMovieData {
  cols : Columns;
  rated : Bind; released : Bind; awards : Bind;
  ai_reason : JsValue
}.

(** movies.js (and favorites.js), formatMovieData *)
Definition formatMovieData_movies (omdbData : OmdbData) : MovieData :=
  {| cols :=
       {| imdb_id := imdbID omdbData;
          title := Title omdbData;
          year := numOrNull (parseInt (Year omdbData));
          genre := ofField (Genre omdbData);
          director := ofField (Director omdbData);
          actors := ofField (Actors omdbData);
          plot := ofField (Plot omdbData);
          poster_url := posterOf (Poster omdbData);
          imdb_rating := numOrNull (parseFloat (imdbRating omdbData));
          runtime := ofField (Runtime omdbData);
          language := ofField (Language omdbData);
          country := ofField (Country omdbData) |};
     rated := BUndefined; released := BUndefined; awards := BUndefined;
     ai_reason := JUndefined |}.

(** recommendations.js, formatMovieData *)
Definition formatMovieData (omdbData : OmdbData) : MovieData :=
  {| cols :=
       {| imdb_id := imdbID omdbData;
          title := Title omdbData;
          year := numOrNull (parseInt (Year omdbData));
          genre := fieldOr (Genre omdbData) "Unknown";
          director := fieldOr (Director omdbData) "Unknown";
          actors := fieldOr (Actors omdbData) "Unknown";
          plot := fieldOr (Plot omdbData) "Plot not available";
          poster_url := posterOf (Poster omdbData);
          imdb_rating := numOrNull (parseFloat (imdbRating omdbData));
          runtime := fieldOr (Runtime omdbData) "Unknown";
          language := fieldOr (Language omdbData) "Unknown";
          country := fieldOr (Country omdbData) "Unknown" |};
     rated := fieldOr (Rated omdbData) "Unknown";
     released := fieldOr (Released omdbData) "Unknown";
     awards := fieldOr (Awards omdbData) "Unknown";
     ai_reason := JUndefined |}.

(** The stored value is the number zero. *)
Definition isZeroNumber (b : Bind) : bool :=
  match b with BNum n => isZero n | _ => false end.

End Omdb.
Export Omdb.

(** ** The store (database/schema.sql) and the statements the code runs

    A table with a unique key is a finite map from the key to the rest of
    the row. The surrogate [id] columns take part in no statement of the
    code and are left out. Column values are kept as they were bound: the
    engine's own conversions (the rounding of DECIMAL(3,1), the length
    limits of VARCHAR) are outside this model, and keys are compared
    exactly. A statement fails only for what it is given (an [undefined]
    parameter, a duplicate key): every statement reaches the database. Time
    is in seconds. *)

Module Db.

Record MovieRow := mkMovieRow {
  row_cols : Columns;
  created_at : Z
}.

(** What the driver hands back for the JSON column [recommendations]: a
    Buffer (given by its text) or a value; a string is the value [JStr]. *)
Inductive Raw : Type :=
  | RawBuffer (text : jsstring)
  | RawValue (v : JsValue).

Record AiRow := mkAiRow {
  user_prompt : jsstring;
  recommendations : Raw;
  ai_created_at : Z;
  expires_at : option Z
}.

Record Db := mkDb {
  movies_cache : gmap jsstring MovieRow;
  ai_recommendations_cache : gmap jsstring AiRow
}.

Definition isUndefined (b : Bind) : bool :=
  match b with BUndefined => true | _ => false end.

(** The driver refuses a statement one of whose parameters is [undefined]. *)
Definition bindable (c : Columns) : bool :=
  negb (isUndefined (ofField (imdb_id c)) || isUndefined (ofField (title c))
        || isUndefined (year c) || isUndefined (genre c)
        || isUndefined (director c) || isUndefined (actors c)
        || isUndefined (plot c) || isUndefined (poster_url c)
        || isUndefined (imdb_rating c) || isUndefined (runtime c)
        || isUndefined (language c) || isUndefined (country c)).

(** [INSERT INTO movies_cache (...) VALUES (...) ON DUPLICATE KEY UPDATE
    title = VALUES(title), ..., country = VALUES(country)]: a new row takes
    [created_at] from its default, the current time; on a duplicate key the
    eleven listed columns are overwritten and nothing else is. *)
Definition insertMovie (now : Z) (c : Columns) (db : Db) : Exn + Db :=
  if bindable c then
    match imdb_id c with
    | Some key =>
        let row :=
          match movies_cache db !! key with
          | Some old => mkMovieRow c (created_at old)
          | None => mkMovieRow c now
          end in
        inr (mkDb (<[key := row]> (movies_cache db)) (ai_recommendations_cache db))
    | None => inl TypeError
    end
  else inl TypeError.

(** cacheMovie: the insert inside [try], the error logged in [catch]. *)
Definition cacheMovie (now : Z) (movieData : MovieData) (db : Db) : Db :=
  match insertMovie now (cols movieData) db with
  | inr db' => db'
  | inl _ => db
  end.

(** [SELECT * FROM movies_cache WHERE imdb_id = ?] *)
Definition findById (db : Db) (imdbId : jsstring) : option MovieRow :=
  movies_cache db !! imdbId.

End Db.
Export Db.

(** ** The recommendation cache (recommendations.js, router.post('/ai')) *)

Module RecCache.

(** The text [[object Object]]. *)
Definition objectObject : jsstring := lit "[object Object]".

(** The string conversion of [v] as an element of a joined array, as far as
    the code looks at it: whether it throws, and otherwise whether the
    result is the text [[object Object]]. An object with a property
    [toString] of its own cannot be converted (a value read from JSON is
    never a function); any other object converts to [[object Object]];
    [null] converts to the empty string inside a join. *)
Fixpoint elemIsObjectObject (v : JsValue) : Exn + bool :=
  match v with
  | JUndefined | JNull | JBool _ | JNum _ => inr false
  | JStr s => inr (strEqb s objectObject)
  | JObj props =>
      match ownProp props (lit "toString") with
      | Some _ => inl TypeError
      | None => inr true
      end
  | JArr items =>
      let fix each (l : list JsValue) : Exn + list bool :=
        match l with
        | [] => inr []
        | x :: t =>
            match elemIsObjectObject x with
            | inl e => inl e
            | inr b =>
                match each t with
                | inl e => inl e
                | inr bs => inr (b :: bs)
                end
            end
        end in
      match each items with
      | inl e => inl e
      | inr [b] => inr b
      | inr _ => inr false
      end
  end.

(** The body of the [try]: what [parsed] becomes, or what is thrown. *)
Definition readRaw (raw : Raw) : Exn + JsValue :=
  match raw with
  | RawValue (JStr s) =>
      match JSON_parse s with
      | Some v => inr v
      | None => inl SyntaxError
      end
  | RawValue (JObj props) =>
      match ownProp props (lit "toString") with
      | Some f => if truthy f then inl TypeError else inr (JObj props)
      | None => inr JNull
      end
  | RawValue (JArr items) =>
      match elemIsObjectObject (JArr items) with
      | inl e => inl e
      | inr true => inr JNull
      | inr false => inr (JArr items)
      end
  | RawBuffer text =>
      if strEqb text objectObject then inr JNull
      else match JSON_parse text with
           | Some v => inr v
           | None => inl SyntaxError
           end
  | RawValue v => inr v
  end.

(** [try { ... } catch (parseErr) { console.warn(...); parsed = null; }]:
    the value of [parsed] and whether the warning was logged. *)
Definition parseCached (raw : Raw) : JsValue * bool :=
  match readRaw raw with
  | inr v => (v, false)
  | inl _ => (JNull, true)
  end.

(** [Array.isArray(v.name)] together with the array. *)
Definition propArray (v : JsValue) (name : string) : option (list JsValue) :=
  match getProp v (lit name) with
  | inr (JArr l) => Some l
  | _ => None
  end.

Definition fromParsed (parsed : JsValue) : list JsValue :=
  if truthy parsed then
    match parsed with
    | JArr l => l
    | _ =>
        match propArray parsed "recommendations" with
        | Some l => l
        | None => default [] (propArray parsed "data")
        end
    end
  else [].

(** [raw && typeof raw === 'object' && Array.isArray(raw.recommendations)] *)
Definition fromRaw (raw : Raw) : option (list JsValue) :=
  match raw with
  | RawValue (JObj props) => propArray (JObj props) "recommendations"
  | _ => None
  end.

Definition normalize (raw : Raw) (parsed : JsValue) : list JsValue :=
  match fromParsed parsed with
  | [] => default [] (fromRaw raw)
  | l => l
  end.

(** [user_prompt || (parsed && parsed.originalPrompt) || ''] *)
Definition originalPromptOf (row : AiRow) (parsed : JsValue) : JsValue :=
  let inner :=
    if truthy parsed
    then match getProp parsed (lit "originalPrompt") with
         | inr v => v
         | inl _ => JUndefined
         end
    else parsed in
  orElse (orElse (JStr (user_prompt row)) inner) (JStr []).

(** The reply served from the cache, and whether a warning was logged. *)
Record CachedReply := mkCachedReply {
  cachedRecommendations : list JsValue;
  cachedOriginalPrompt : JsValue;
  warned : bool
}.

Definition replyFromRow (row : AiRow) : CachedReply :=
  let raw := recommendations row in
  let '(parsed, w) := parseCached raw in
  mkCachedReply (normalize raw parsed) (originalPromptOf row parsed) w.

(** [SELECT * FROM ai_recommendations_cache WHERE prompt_hash = ? AND
    expires_at > NOW()] *)
Definition selectLive (db : Db) (promptHash : jsstring) (now : Z) : list AiRow :=
  match ai_recommendations_cache db !! promptHash with
  | Some row =>
      match expires_at row with
      | Some e => if (now <? e)%Z then [row] else []
      | None => []
      end
  | None => []
  end.

Inductive Lookup : Type :=
  | Miss
  | Hit (reply : CachedReply).

(** The read side of the cache: the lookup by hash and, on a row, the reply
    built from it. On [Miss] the handler goes on to generate. *)
Definition get (db : Db) (promptHash : jsstring) (now : Z) : Lookup :=
  match selectLive db promptHash now with
  | row :: _ => Hit (replyFromRow row)
  | [] => Miss
  end.

Definition DAY : Z := 24 * 3600.

(** [INSERT INTO ai_recommendations_cache (prompt_hash, user_prompt,
    recommendations, expires_at) VALUES (?, ?, ?, DATE_ADD(NOW(), INTERVAL
    24 HOUR))]: [prompt_hash] is UNIQUE, so the statement fails when a row
    with this hash exists, live or expired. *)
Definition insertRecommendations (now : Z) (promptHash prompt : jsstring)
    (payload : Raw) (db : Db) : Exn + Db :=
  match ai_recommendations_cache db !! promptHash with
  | Some _ => inl (Error (lit "ER_DUP_ENTRY"))
  | None =>
      inr (mkDb (movies_cache db)
             (<[promptHash := mkAiRow prompt payload now (Some (now + DAY)%Z)]>
                (ai_recommendations_cache db)))
  end.

(** The write side: the insert inside [try], its error logged in [catch].
    The flag tells whether [Cache error] was logged. *)
Definition put (now : Z) (promptHash prompt : jsstring) (payload : Raw) (db : Db)
    : Db * bool :=
  match insertRecommendations now promptHash prompt payload db with
  | inr db' => (db', false)
  | inl _ => (db, true)
  end.

(** [DELETE FROM ai_recommendations_cache WHERE expires_at <= NOW()]
    (router.delete('/cache')); a row whose [expires_at] is NULL is kept. *)
Definition expired (now : Z) (row : AiRow) : bool :=
  match expires_at row with
  | Some e => (e <=? now)%Z
  | None => false
  end.

Definition clearCache (now : Z) (db : Db) : Db :=
  mkDb (movies_cache db)
    (filter (λ kv, expired now kv.2 = false) (ai_recommendations_cache db)).

(** A live entry: a row a reader would be served. *)
Definition live (db : Db) (promptHash : jsstring) (now : Z) : Prop :=
  selectLive db promptHash now ≠ [].

Section Handler.

(** [String.prototype.toLowerCase], a built-in of the runtime (its Unicode
    case tables are not part of the program). *)
Variable toLowerCase : jsstring → jsstring.

(** [crypto.createHash('sha256').update(prompt.toLowerCase().trim())
    .digest('hex')] *)
Definition promptHash (prompt : jsstring) : jsstring :=
  sha256hex (trim (toLowerCase prompt)).

(** What generating gives: [generateAIRecommendations] followed by
    [getMovieDetailsForRecommendations], which may write to [movies_cache]. *)
Inductive Generated : Type :=
  | GenFailed (error : jsstring) (details : JsValue)
  | GenOk (explanation : JsValue) (detailedRecommendations : list JsValue).

Variable generate : jsstring → Db → Generated * Db.

Inductive Reply : Type :=
  | BadRequest (error : jsstring)
  | ServedFromCache (reply : CachedReply)
  | ServerError (error : jsstring) (details : JsValue)
  | ServedFromAi (response : JsValue).

(** The object [response] of the handler. *)
Definition responseOf (explanation : JsValue) (detailed : list JsValue)
    (prompt : jsstring) : JsValue :=
  JObj [ (lit "source", JStr (lit "ai"));
         (lit "explanation", explanation);
         (lit "recommendations", JArr detailed);
         (lit "originalPrompt", JStr prompt) ].

(** router.post('/ai'). [now] is the time of the lookup, [later] the time
    of the insert. The column receives [JSON.stringify(response)]; the
    driver hands the document back as a value. The insert into
    [search_history] that follows touches no cache table and is left out. *)
Definition postAI (prompt : jsstring) (now later : Z) (db : Db) : Reply * Db :=
  if strEqb prompt [] then (BadRequest (lit "Prompt is required"), db)
  else if (500 <? length prompt)%nat then
    (BadRequest (lit "Prompt too long. Please keep it under 500 characters."), db)
  else
    let h := promptHash prompt in
    match get db h now with
    | Hit reply => (ServedFromCache reply, db)
    | Miss =>
        match generate prompt db with
        | (GenFailed error details, db1) => (ServerError error details, db1)
        | (GenOk explanation detailed, db1) =>
            let response := responseOf explanation detailed prompt in
            (ServedFromAi response, (put later h prompt (RawValue response) db1).1)
        end
    end.

End Handler.

End RecCache.
Export RecCache.

(** ** The metadata provider and its callers *)

Module Provider.

(** One HTTP request to the provider. *)
Record Request := mkRequest {
  https : bool;
  params : list (jsstring * JsValue);
  timeout : N
}.

(** What [axios.get] does: it throws (time-out, connection error, a status
    outside 2xx) or gives the reply. *)
Inductive Outcome : Type :=
  | Threw (message : jsstring)
  | Replied (data : OmdbData).

(** The state the code acts on: the store, the requests sent so far and the
    pauses taken so far (milliseconds), both oldest first. *)
Record World := mkWorld {
  db : Db;
  requests : list Request;
  slept : list N
}.

Definition send (req : Request) (w : World) : World :=
  mkWorld (db w) (requests w ++ [req]) (slept w).

Definition sleep (ms : N) (w : World) : World :=
  mkWorld (db w) (requests w) (slept w ++ [ms]).

Definition withDb (d : Db) (w : World) : World :=
  mkWorld d (requests w) (slept w).

Inductive FetchResult : Type :=
  | Returned (data : option OmdbData)
  | Thrown (message : jsstring).

Section WithProvider.

(** The provider: the outcome of a request given how many were sent before. *)
Variable provider : nat → Request → Outcome.

(** The [for] loop of fetchOmdb from [attempt] on; [remaining] is the
    number of attempts left, [retries - attempt + 1]. When the loop ends
    without a [return] the function returns [undefined]. *)
Fixpoint attempts (remaining attempt retries : nat)
    (params : list (jsstring * JsValue)) (timeout : N) (w : World)
    : FetchResult * World :=
  match remaining with
  | O => (Returned None, w)
  | S remaining' =>
      let req := mkRequest true params timeout in
      match provider (length (requests w)) req with
      | Replied data => (Returned (Some data), send req w)
      | Threw err =>
          let last := (attempt =? retries)%nat in
          if last then (Thrown err, send req w)
          else attempts remaining' (S attempt) retries params timeout
                 (sleep (500 * N.of_nat attempt) (send req w))
      end
  end.

(** movies.js, fetchOmdb(params, retries = 3, timeout = 5000) *)
Definition fetchOmdb (params : list (jsstring * JsValue)) (retries : nat)
    (timeout : N) (w : World) : FetchResult * World :=
  attempts retries 1 retries params timeout w.

Definition fetchOmdb_default (params : list (jsstring * JsValue)) (w : World)
    : FetchResult * World :=
  fetchOmdb params 3 5000 w.

End WithProvider.

End Provider.
Export Provider.

(** ** Reconciliation (recommendations.js, getMovieDetailsForRecommendations) *)

Module Reconcile.

(** A candidate as generateAIRecommendations hands it over. *)
Record Candidate := mkCandidate {
  c_title : JsValue;
  c_year : JsValue;
  c_reason : JsValue
}.

(** The object pushed when no verified record could be obtained. *)
Record Basic := mkBasic {
  b_title : JsValue;
  b_year : JsValue;
  b_ai_reason : JsValue;
  b_plot : jsstring;
  b_poster_url : Bind;
  b_genre : jsstring;
  b_director : jsstring;
  b_actors : jsstring;
  b_imdb_rating : Bind;
  b_error : option jsstring
}.

Inductive Detailed : Type :=
  | CachedItem (row : MovieRow) (ai_reason : JsValue)
  | FetchedItem (movieDetails : MovieData)
  | BasicItem (info : Basic).

Definition basic (movieData : Candidate) (plot : string) (error : option string)
    : Detailed :=
  BasicItem
    {| b_title := c_title movieData;
       b_year := c_year movieData;
       b_ai_reason := c_reason movieData;
       b_plot := lit plot;
       b_poster_url := BNull;
       b_genre := lit "Unknown";
       b_director := lit "Unknown";
       b_actors := lit "Unknown";
       b_imdb_rating := BNull;
       b_error := lit <$> error |}.

(** The rating of a row as a fraction [(numerator, power of ten)], for
    [ORDER BY imdb_rating DESC]; NULL sorts last. *)
Definition ratingOf (row : MovieRow) : option (Z * Z) :=
  match imdb_rating (row_cols row) with
  | BNum (Dec neg mant exp) => Some (if neg then (- Z.of_N mant)%Z else Z.of_N mant, exp)
  | _ => None
  end.

Definition fracLt (a b : Z * Z) : bool :=
  let e := Z.min a.2 b.2 in
  (a.1 * 10 ^ (a.2 - e) <? b.1 * 10 ^ (b.2 - e))%Z.

(** [a] comes strictly before [b] in descending order of rating. *)
Definition ratedAbove (a b : MovieRow) : bool :=
  match ratingOf a, ratingOf b with
  | Some x, Some y => fracLt y x
  | Some _, None => true
  | None, _ => false
  end.

Definition best (rows : list MovieRow) : option MovieRow :=
  foldl (λ acc r, match acc with
                  | None => Some r
                  | Some b => if ratedAbove r b then Some r else Some b
                  end) None rows.

Section WithEnvironment.

Variable provider : nat → Request → Outcome.

(** [process.env.OMDB_API_KEY]: a string, or [undefined]. *)
Variable OMDB_API_KEY : JsValue.

(** [title LIKE ?] with the parameter [`%${t}%`], under the collation of the
    column: the engine's matching, given the candidate's title. *)
Variable titleLike : JsValue → jsstring → bool.

(** [SELECT * FROM movies_cache WHERE title LIKE ? ORDER BY imdb_rating DESC
    LIMIT 1]: a highest-rated matching row, if any row matches. *)
Definition selectByTitle (d : Db) (t : JsValue) : option MovieRow :=
  best (List.filter (λ r, match title (row_cols r) with
                          | Some s => titleLike t s
                          | None => false
                          end)
          (map_to_list (movies_cache d)).*2).

Definition omdbRequest (movieData : Candidate) : Request :=
  mkRequest false
    [ (lit "apikey", OMDB_API_KEY); (lit "t", c_title movieData);
      (lit "y", c_year movieData); (lit "type", JStr (lit "movie")) ]
    10000.

(** The body of the loop for one candidate: the item pushed, and the state
    after it. Every path through the [try] and the [catch] pushes exactly
    one item. *)
Definition detailsFor (now : Z) (movieData : Candidate) (w : World) : Detailed * World :=
  match selectByTitle (db w) (c_title movieData) with
  | Some row => (CachedItem row (c_reason movieData), w)
  | None =>
      if negb (truthy OMDB_API_KEY) then
        (basic movieData "Plot information unavailable" None, w)
      else
        let req := omdbRequest movieData in
        let w1 := send req w in
        match provider (length (requests w)) req with
        | Threw _ =>
            (basic movieData "Error fetching movie details" (Some "Fetch failed"%string), w1)
        | Replied data =>
            if bool_decide (Response data = Some (lit "True")) then
              let formatted := formatMovieData data in
              let movieDetails :=
                mkMovieData (cols formatted) (rated formatted) (released formatted)
                  (awards formatted) (c_reason movieData) in
              (FetchedItem movieDetails, withDb (cacheMovie now movieDetails (db w1)) w1)
            else
              (basic movieData "Movie details not available" (Some "Details not found"%string), w1)
        end
  end.

Fixpoint detailsLoop (now : Z) (movieTitles : list Candidate) (w : World)
    (detailedMovies : list Detailed) : list Detailed * World :=
  match movieTitles with
  | [] => (detailedMovies, w)
  | movieData :: rest =>
      let '(item, w') := detailsFor now movieData w in
      detailsLoop now rest w' (detailedMovies ++ [item])
  end.

Definition getMovieDetailsForRecommendations (now : Z) (movieTitles : list Candidate)
    (w : World) : list Detailed * World :=
  detailsLoop now movieTitles w [].

End WithEnvironment.

End Reconcile.
Export Reconcile.

(** ** Generation (recommendations.js, generateAIRecommendations) *)

Module Generate.

(** The error [axios.post] throws: [status] is [error.response.status] when
    there is a response, [apiMessage] is [error.response.data?.error?.message]. *)
Record AxiosError := mkAxiosError {
  message : jsstring;
  status : option N;
  apiMessage : JsValue
}.

Inductive PostOutcome : Type :=
  | PostThrew (err : AxiosError)
  | PostReplied (aiContent : jsstring).

(** The [details] of a failure: a value, or the engine's own wording of the
    exception it raised (not modelled). *)
Inductive Details : Type :=
  | Text (v : JsValue)
  | EngineText (e : Exn).

Inductive AiResponse : Type :=
  | Success (explanation : JsValue) (movieTitles : list Candidate)
  | Failure (error : jsstring) (details : Details).

Definition failed (r : AiResponse) : bool :=
  match r with Failure _ _ => true | Success _ _ => false end.

Definition bind {A B : Type} (x : Exn + A) (f : A → Exn + B) : Exn + B :=
  match x with
  | inl e => inl e
  | inr a => f a
  end.

Notation "'let!' x ':=' e 'in' k" := (bind e (λ x, k))
  (at level 10, x name, e at level 100, k at level 200, only parsing).

Fixpoint mapE {A B : Type} (f : A → Exn + B) (l : list A) : Exn + list B :=
  match l with
  | [] => inr []
  | x :: t => let! y := f x in let! ys := mapE f t in inr (y :: ys)
  end.

Definition genericError : jsstring := lit "Error generating AI recommendations".

(** The object built from the extracted titles. *)
Definition fallbackResponse (movieTitles : list jsstring) : JsValue :=
  JObj
    [ (lit "explanation",
        JStr (lit "AI-generated recommendations based on your request."));
      (lit "movies",
        JArr ((λ title, JObj [ (lit "title", JStr title);
                               (lit "year", JNull);
                               (lit "reason", JStr (lit "Recommended by AI")) ])
              <$> movieTitles)) ].

(** The inner [try]/[catch]: the strict parse, and only when it throws the
    extraction from the text. *)
Definition parseResponse (aiContent : jsstring) : Exn + JsValue :=
  match JSON_parse aiContent with
  | Some parsedResponse => inr parsedResponse
  | None =>
      let movieTitles := extractMovieTitlesFromText aiContent in
      if (length movieTitles =? 0)%nat
      then inl (Error (lit "Could not extract movie titles from AI response"))
      else inr (fallbackResponse movieTitles)
  end.

(** [m => ({ title: m.title || 'Unknown Title', year: m.year,
              reason: m.reason || "Recommended by AI" })] *)
Definition toCandidate (m : JsValue) : Exn + Candidate :=
  let! t := getProp m (lit "title") in
  let! y := getProp m (lit "year") in
  let! r := getProp m (lit "reason") in
  inr (mkCandidate (orElse t (JStr (lit "Unknown Title"))) y
         (orElse r (JStr (lit "Recommended by AI")))).

(** The validation of the structure and the result built from it. *)
Definition validate (parsedResponse : JsValue) : Exn + AiResponse :=
  let! movies := getProp parsedResponse (lit "movies") in
  match movies with
  | JArr items =>
      if (length items =? 0)%nat
      then inl (Error (lit "No movie recommendations returned from AI"))
      else
        let! explanation := getProp parsedResponse (lit "explanation") in
        let! movieTitles := mapE toCandidate items in
        inr (Success (orElse explanation (JStr (lit "AI-generated recommendations")))
               movieTitles)
  | _ => inl (Error (lit "Invalid response format from AI"))
  end.

Inductive Raised : Type :=
  | Plain (e : Exn)
  | Http (err : AxiosError).

Definition detailsOf (e : Exn) : Details :=
  match e with
  | Error msg => Text (JStr msg)
  | _ => EngineText e
  end.

(** The outer [catch]. *)
Definition describe (t : Raised) : AiResponse :=
  match t with
  | Plain e => Failure genericError (detailsOf e)
  | Http err =>
      match status err with
      | None => Failure genericError (Text (JStr (message err)))
      | Some 400 =>
          Failure (lit "Invalid request format or parameters")
            (Text (orElse (apiMessage err) (JStr (lit "Bad request to AI service"))))
      | Some 401 =>
          Failure (lit "Authentication failed")
            (Text (JStr (lit "Invalid or expired API key")))
      | Some 429 =>
          Failure (lit "Rate limit exceeded")
            (Text (JStr (lit "Too many requests. Please try again later.")))
      | Some 500 | Some 502 | Some 503 =>
          Failure (lit "AI service unavailable")
            (Text (JStr (lit "The AI service is temporarily down. Please try again later.")))
      | Some _ =>
          Failure genericError (Text (orElse (apiMessage err) (JStr (message err))))
      end
  end.

(** What the function returns once the provider has replied [aiContent]. *)
Definition fromContent (aiContent : jsstring) : AiResponse :=
  match let! parsedResponse := parseResponse aiContent in validate parsedResponse with
  | inr r => r
  | inl e => describe (Plain e)
  end.

Section WithProvider.

(** [process.env.GROQ_API_KEY] *)
Variable GROQ_API_KEY : JsValue.

(** The one call to the language-model provider (time-out 30 s). *)
Variable post : jsstring → PostOutcome.

Definition generateAIRecommendations (prompt : jsstring) : AiResponse :=
  if negb (truthy GROQ_API_KEY) then
    describe (Plain (Error (lit "GROQ_API_KEY not found in environment variables")))
  else
    match post prompt with
    | PostThrew err => describe (Http err)
    | PostReplied aiContent => fromContent aiContent
    end.

End WithProvider.

(** The validation accepts [v]: it carries a non-empty array [movies]. *)
Definition moviesOf (v : JsValue) : option (list JsValue) :=
  match getProp v (lit "movies") with
  | inr (JArr items) => Some items
  | _ => None
  end.

End Generate.
Export Generate.

(** ** Ordered queries on movies_cache (movies.js) *)

Module Queries.

(** [x] goes in front of the first element that does not come strictly
    before it: rows that tie keep the order they had. *)
Fixpoint insertBy {A : Type} (before : A → A → bool) (x : A) (l : list A) : list A :=
  match l with
  | [] => [x]
  | y :: t => if before y x then y :: insertBy before x t else x :: y :: t
  end.

Definition sortBy {A : Type} (before : A → A → bool) (l : list A) : list A :=
  foldr (insertBy before) [] l.

(** The running choice of [LIMIT 1] over rows in order: the first row that
    no other row comes before. *)
Definition pick {A : Type} (before : A → A → bool) (acc : option A) (r : A) : option A :=
  match acc with
  | None => Some r
  | Some b => if before r b then Some r else Some b
  end.

(** The rows of the table. *)
Definition rowsOf (d : Db) : list MovieRow := (map_to_list (movies_cache d)).*2.

(** [imdb_rating >= t], the threshold given in tenths; NULL never passes. *)
Definition ratedAtLeast (tenths : Z) (row : MovieRow) : bool :=
  match ratingOf row with
  | Some x => negb (fracLt x (tenths, (-1)%Z))
  | None => false
  end.

(** [ORDER BY imdb_rating DESC, created_at DESC] *)
Definition trendsBefore (a b : MovieRow) : bool :=
  ratedAbove a b || (negb (ratedAbove b a) && (created_at b <? created_at a)%Z).

(** [SELECT * FROM movies_cache WHERE imdb_rating >= ? ORDER BY imdb_rating
    DESC, created_at DESC LIMIT 20], with 7.0 and with 6.0 in the route. *)
Definition trendingCache (tenths : Z) (d : Db) : list MovieRow :=
  take 20 (sortBy trendsBefore (List.filter (ratedAtLeast tenths) (rowsOf d))).

Section WithCollation.

Variable titleLike : JsValue → jsstring → bool.

Definition titleMatches (t : JsValue) (r : MovieRow) : bool :=
  match title (row_cols r) with
  | Some s => titleLike t s
  | None => false
  end.


End WithCollation.

End Queries.
Export Queries.

(** ** Routes of movies.js *)

Module MoviesRoutes.

(** The fixed list of well-known titles. *)
Definition popularTitles : list jsstring :=
  [ lit "The Dark Knight"; lit "Inception"; lit "Pulp Fiction";
    lit "The Shawshank Redemption"; lit "Forrest Gump"; lit "The Matrix";
    lit "Goodfellas"; lit "The Godfather"; lit "Interstellar"; lit "Fight Club" ].

(** [force === '1' || force === 'true' || source === 'omdb'] on the query
    parameters, each a string or missing. *)
Definition forceOmdb (force source : Field) : bool :=
  bool_decide (force = Some (lit "1")) || bool_decide (force = Some (lit "true"))
  || bool_decide (source = Some (lit "omdb")).


Inductive TrendingReply : Type :=
  | TrendingFromCache (movies : list MovieRow)
  | TrendingFromOmdb (movies : list MovieData)
  | TrendingCacheFallback (movies : list MovieRow).

Section WithEnvironment.

Variable provider : nat → Request → Outcome.
Variable OMDB_API_KEY : JsValue.

Definition detailsParams (imdbId : jsstring) : list (jsstring * JsValue) :=
  [ (lit "apikey", OMDB_API_KEY); (lit "i", JStr imdbId);
    (lit "plot", JStr (lit "full")) ].

(** getMovieDetails: the formatted reply when it is flagged [True], [null]
    otherwise and when fetchOmdb throws. *)
Definition getMovieDetails (imdbId : jsstring) (w : World) : option MovieData * World :=
  match fetchOmdb_default provider (detailsParams imdbId) w with
  | (Returned (Some data), w') =>
      if bool_decide (Response data = Some (lit "True"))
      then (Some (formatMovieData_movies data), w')
      else (None, w')
  | (Returned None, w') => (None, w')
  | (Thrown _, w') => (None, w')
  end.


Definition trendingParams (t : jsstring) : list (jsstring * JsValue) :=
  [ (lit "apikey", OMDB_API_KEY); (lit "t", JStr t); (lit "type", JStr (lit "movie")) ].

(** The loop over the titles. The write of a fetched movie is detached in
    the source; the route reads the table again only when no movie was
    fetched, that is when nothing was written, so the write is taken at
    once. A title whose fetch throws or is not flagged [True] is skipped. *)
Fixpoint trendingLoop (now : Z) (titles : list jsstring) (w : World)
    (movies : list MovieData) : list MovieData * World :=
  match titles with
  | [] => (movies, w)
  | t :: rest =>
      match fetchOmdb_default provider (trendingParams t) w with
      | (Returned (Some searchData), w1) =>
          if bool_decide (Response searchData = Some (lit "True")) then
            let movie := formatMovieData_movies searchData in
            trendingLoop now rest (withDb (cacheMovie now movie (db w1)) w1)
              (movies ++ [movie])
          else trendingLoop now rest w1 movies
      | (_, w1) => trendingLoop now rest w1 movies
      end
  end.

(** router.get('/trending') *)
Definition trendingRoute (now : Z) (force source : Field) (w : World)
    : TrendingReply * World :=
  let trendingMovies := trendingCache 70 (db w) in
  if negb (forceOmdb force source) && (10 <=? length trendingMovies)%nat then
    (TrendingFromCache trendingMovies, w)
  else
    let '(movies, w') := trendingLoop now popularTitles w [] in
    match movies with
    | [] =>
        match trendingCache 60 (db w') with
        | [] => (TrendingFromOmdb [], w')
        | cachedFallback => (TrendingCacheFallback cachedFallback, w')
        end
    | _ => (TrendingFromOmdb movies, w')
    end.

End WithEnvironment.

End MoviesRoutes.
Export MoviesRoutes.

(** * Properties *)

(** ** The predicates the statements use *)

Module Statements.

(** A prompt the handler accepts. *)
Definition accepted (prompt : jsstring) : Prop :=
  prompt ≠ [] ∧ (length prompt ≤ 500)%nat.

(** The stored payload is text that [JSON.parse] rejects. *)
Definition unparsable (raw : Raw) : Prop :=
  match raw with
  | RawValue (JStr s) | RawBuffer s => JSON_parse s = None
  | _ => False
  end.

(** Neither [null] nor [undefined]: a value whose properties can be read. *)
Definition readable (v : JsValue) : Prop := v ≠ JNull ∧ v ≠ JUndefined.

Section OnCandidates.

Variable provider : nat → Request → Outcome.
Variable OMDB_API_KEY : JsValue.
Variable titleLike : JsValue → jsstring → bool.

(** The candidate matches no cached row, and the provider cannot be asked
    (no key), cannot be reached (the request throws) or does not know the
    title (its reply is not flagged [True]). *)
Definition unresolved (movieData : Candidate) (w : World) : Prop :=
  selectByTitle titleLike (db w) (c_title movieData) = None
  ∧ (truthy OMDB_API_KEY = false
     ∨ (∃ msg, provider (length (requests w)) (omdbRequest OMDB_API_KEY movieData)
               = Threw msg)
     ∨ (∃ data, provider (length (requests w)) (omdbRequest OMDB_API_KEY movieData)
                = Replied data
                ∧ Response data ≠ Some (lit "True"))).

(** The item stands for the candidate: its title, year and rationale, and
    the fixed values that mark the rest as unavailable. *)
Definition placeholderFor (movieData : Candidate) (info : Basic) : Prop :=
  b_title info = c_title movieData
  ∧ b_year info = c_year movieData
  ∧ b_ai_reason info = c_reason movieData
  ∧ b_poster_url info = BNull
  ∧ b_imdb_rating info = BNull
  ∧ b_genre info = lit "Unknown"
  ∧ b_director info = lit "Unknown"
  ∧ b_actors info = lit "Unknown"
  ∧ b_plot info ∈ [ lit "Plot information unavailable";
                    lit "Movie details not available";
                    lit "Error fetching movie details" ].

End OnCandidates.

End Statements.
Export Statements.

(** ** Concrete inputs used by the examples *)

Module Samples.

(** [s] between double quotes. *)
Definition quoted (s : string) : jsstring := [34] ++ lit s ++ [34].

(** The reply [Here are some picks: "Inception" (2010), "Arrival" (2016)]. *)
Definition picks : jsstring :=
  lit "Here are some picks: " ++ quoted "Inception" ++ lit " (2010), "
    ++ quoted "Arrival" ++ lit " (2016)".

(** Lower-casing restricted to ASCII letters: what [toLowerCase] does on a
    text of ASCII characters. *)
Definition lowerAscii (s : jsstring) : jsstring := asciiLower <$> s.

Definition emptyDb : Db := mkDb ∅ ∅.

(** A payload whose year is [0] and whose rating is [0.0]. *)
Definition zeroPayload : OmdbData :=
  mkOmdbData (Some (lit "True")) (Some (lit "tt0000001")) (Some (lit "Zero"))
    (Some (lit "0")) None None None None None (Some (lit "0.0"))
    None None None None None None.

(** A table holding one row, cached at time 0. *)
Definition oneRow (h : jsstring) (payload : Raw) : Db :=
  mkDb ∅ {[ h := mkAiRow (lit "dark thriller") payload 0 (Some DAY) ]}.

(** A payload that is not JSON. *)
Definition garbage : Raw := RawValue (JStr (lit "not json")).

(** A generator that would answer with one fresh recommendation. *)
Definition freshAnswer (tag : string) : jsstring → Db → Generated * Db :=
  λ _ d, (GenOk (JStr (lit tag)) [JStr (lit tag)], d).


(** A provider that cannot be reached. *)
Definition unreachable : nat → Request → Outcome := λ _ _, Threw (lit "ETIMEDOUT").

(** A table in which no title matches. *)
Definition noMatch : JsValue → jsstring → bool := λ _ _, false.

Definition candidate (t r : string) : Candidate :=
  mkCandidate (JStr (lit t)) (JNum (Dec false 2010 0)) (JStr (lit r)).

Definition emptyWorld : World := mkWorld emptyDb [] [].

(** A reply for [Inception]. *)
Definition found : OmdbData :=
  mkOmdbData (Some (lit "True")) (Some (lit "tt1375666")) (Some (lit "Inception"))
    (Some (lit "2010")) None None None None None (Some (lit "8.8"))
    None None None None None None.

(** A provider whose first request times out and which answers every later
    one. *)
Definition flaky : nat → Request → Outcome :=
  λ n _, match n with
         | O => Threw (lit "timeout of 10000ms exceeded")
         | S _ => Replied found
         end.

(** The reply [{"explanation":"none"}]. *)
Definition noMovies : jsstring :=
  lit "{" ++ quoted "explanation" ++ lit ":" ++ quoted "none" ++ lit "}".

End Samples.
Export Samples.

(** ** Predicates and inputs of the further properties *)

Module Further.

(** The characters the cleaning of a title keeps: word characters, white
    space and [- : ! ? & . ,]. *)
Definition keptChar (c : N) : bool :=
  isWord c || isSpace c || oneOf [45; 58; 33; 63; 38; 46; 44] c.

(** The first and the last code unit of a string, when it has any, are not
    white space. *)
Definition trimmed (s : jsstring) : Prop :=
  (∀ c t, s = c :: t → isSpace c = false)
  ∧ (∀ c t, rev s = c :: t → isSpace c = false).

(** What the loops keep true of the list of titles: each title is
    plausible, and the list has no duplicate. *)
Definition wellFormed (titles : list jsstring) : Prop :=
  Forall (λ t, plausible t = true) titles ∧ NoDup titles.

(** The rationale an item carries. *)
Definition reasonOf (item : Detailed) : JsValue :=
  match item with
  | CachedItem _ r => r
  | FetchedItem movieDetails => ai_reason movieDetails
  | BasicItem info => b_ai_reason info
  end.

(** The candidate built from an extracted title. *)
Definition fromTitle (t : jsstring) : Candidate :=
  mkCandidate (JStr t) JNull (JStr (lit "Recommended by AI")).

(** The candidates and the explanation of a result. *)
Definition candidatesOf (r : AiResponse) : list Candidate :=
  match r with Success _ cs => cs | Failure _ _ => [] end.

Definition explanationOf (r : AiResponse) : JsValue :=
  match r with Success e _ => e | Failure _ _ => JUndefined end.

(** An item that needed no provider: a cached row, or the placeholder
    pushed when no key is configured. *)
Definition offline (item : Detailed) : Prop :=
  match item with
  | CachedItem _ _ => True
  | BasicItem info => b_error info = None
  | FetchedItem _ => False
  end.

(** What one candidate costs. *)
Definition stepFootprint (w w' : World) : Prop :=
  (∃ reqs, requests w' = requests w ++ reqs
           ∧ (length reqs ≤ 1)%nat
           ∧ Forall (λ r, https r = false ∧ timeout r = 10000) reqs)
  ∧ slept w' = slept w
  ∧ ai_recommendations_cache (db w') = ai_recommendations_cache (db w)
  ∧ (∀ key, is_Some (findById (db w) key) → is_Some (findById (db w') key)).


(** The same for the order of the trending query. *)
Definition notAfter (a b : MovieRow) : Prop := trendsBefore b a = false.


(** What the trending route makes of the provider's answer for a title, for
    a provider that answers a request the same way every time. *)
Definition resolved (answer : Request → Outcome) (key : JsValue) (t : jsstring)
    : option MovieData :=
  match answer (mkRequest true (trendingParams key t) 5000) with
  | Replied data =>
      if bool_decide (Response data = Some (lit "True"))
      then Some (formatMovieData_movies data) else None
  | Threw _ => None
  end.

(** A reply in JSON with six entries. *)
Definition sixMovies : jsstring :=
  lit "{" ++ [34] ++ lit "movies" ++ [34] ++ lit ":[1,2,3,4,5,6]}".

(** A reply that carries every field. *)
Definition completeReply : OmdbData :=
  mkOmdbData (Some (lit "True")) (Some (lit "tt1375666")) (Some (lit "Inception"))
    (Some (lit "2010")) (Some (lit "Action, Sci-Fi")) (Some (lit "Christopher Nolan"))
    (Some (lit "Leonardo DiCaprio")) (Some (lit "A thief.")) (Some (lit "N/A"))
    (Some (lit "8.8")) (Some (lit "148 min")) (Some (lit "English"))
    (Some (lit "USA")) (Some (lit "PG-13")) (Some (lit "16 Jul 2010"))
    (Some (lit "Won 4 Oscars")).

(** A provider that answers every request with that reply. *)
Definition reliable : nat → Request → Outcome := λ _ _, Replied completeReply.

(** The error text of a failure. *)
Definition errorOf (r : AiResponse) : jsstring :=
  match r with Failure error _ => error | Success _ _ => [] end.

(** The provider failed with an HTTP status. *)
Definition httpError (code : N) : AxiosError :=
  mkAxiosError (lit "Request failed") (Some code) JUndefined.

(** What a parsed payload holds, as the reader unwraps it: the array itself,
    or the array under [recommendations], or else the one under [data]. *)
Definition unwrapped (v : JsValue) : list JsValue :=
  match v with
  | JArr l => l
  | JObj _ =>
      match propArray v "recommendations" with
      | Some l => l
      | None => default [] (propArray v "data")
      end
  | _ => []
  end.


(** A table of ten rows rated 7.1 to 8.0. *)
Definition tenRows : Db :=
  mkDb (list_to_map
          ((λ i : nat, (lit "tt" ++ [N.of_nat (48 + i)],
                        mkMovieRow
                          (mkColumns (Some (lit "tt" ++ [N.of_nat (48 + i)]))
                             (Some (lit "Film")) BNull BNull BNull BNull BNull BNull
                             (BNum (Dec false (N.of_nat (71 + i)) (-1)))
                             BNull BNull BNull)
                          (Z.of_nat i)))
             <$> seq 0 10)) ∅.

End Further.
Export Further.

(** ** The matcher: group 1 takes part in every match of the patterns *)

Lemma greedy_through p min n bef aft cap (k : Cont) res :
  greedy p min n bef aft cap k = Some res →
  ∃ st1, k st1 = Some res ∧ cap1 st1 = cap.
Proof.
  revert n bef. induction aft as [|c t IH]; intros n bef; simpl.
  - destruct (min <=? n)%nat; [|done]. intros Hk. by eexists.
  - destruct (p c).
    + destruct (greedy p min (S n) (c :: bef) t cap k) as [r|] eqn:Hg.
      * intros [= <-]. by apply (IH (S n) (c :: bef)).
      * destruct (min <=? n)%nat; [|done]. intros Hk. by eexists.
    + destruct (min <=? n)%nat; [|done]. intros Hk. by eexists.
Qed.

(** A successful match went through its continuation, with group 1 set if
    it was set before or if the expression sets it on every path. *)
Lemma m_through r : ∀ st (k : Cont) res,
  m r st k = Some res →
  ∃ st1, k st1 = Some res
         ∧ (is_Some (cap1 st) → is_Some (cap1 st1))
         ∧ (captures r = true → is_Some (cap1 st1)).
Proof.
  induction r as [|p|a IHa b IHb|a IHa b IHb|min p|a IHa| |]; intros st k res; simpl.
  - intros Hk. exists st. done.
  - destruct (remaining st) as [|c t]; [done|]. destruct (p c); [|done].
    intros Hk. eexists. split; [exact Hk|]. done.
  - intros Hm. destruct (IHa _ _ _ Hm) as (st1 & Hb & Hkeep1 & Hcap1).
    destruct (IHb _ _ _ Hb) as (st2 & Hk & Hkeep2 & Hcap2).
    exists st2. split; [exact Hk|]. split; [tauto|].
    intros [Ha|Hb']%orb_true_iff; tauto.
  - destruct (m a st k) as [r|] eqn:Ha.
    + intros [= <-]. destruct (IHa _ _ _ Ha) as (st1 & Hk & Hkeep & Hcap).
      exists st1. split; [exact Hk|]. split; [exact Hkeep|].
      intros [Hca _]%andb_true_iff. tauto.
    + intros Hb. destruct (IHb _ _ _ Hb) as (st1 & Hk & Hkeep & Hcap).
      exists st1. split; [exact Hk|]. split; [exact Hkeep|].
      intros [_ Hcb]%andb_true_iff. tauto.
  - intros Hg. destruct (greedy_through _ _ _ _ _ _ _ _ Hg) as (st1 & Hk & Hc).
    exists st1. split; [exact Hk|]. rewrite Hc. done.
  - intros Hm. destruct (IHa _ _ _ Hm) as (st1 & Hk & _).
    eexists. split; [exact Hk|]. simpl. split; eauto.
  - destruct (consumed st); [|done]. intros Hk. exists st. done.
  - destruct (xorb _ _); [|done]. intros Hk. exists st. done.
Qed.

Lemma matchAt_captures r bef aft mt :
  captures r = true → matchAt r bef aft = Some mt → is_Some (mcap mt).
Proof.
  intros Hc. unfold matchAt.
  destruct (m r (mkMState bef aft None) Some) as [st'|] eqn:Hm; [|done].
  intros [= <-]. simpl.
  destruct (m_through _ _ _ _ Hm) as (st1 & [= ->] & _ & Hcap). auto.
Qed.

Lemma scan_captures r skip bef aft :
  captures r = true → Forall (λ mt, is_Some (mcap mt)) (scan r skip bef aft).
Proof.
  intros Hc. revert skip bef. induction aft as [|c t IH]; intros skip bef; simpl.
  - destruct skip; [|constructor].
    destruct (matchAt r bef []) as [mt|] eqn:Hm; constructor; [|constructor].
    by apply (matchAt_captures r bef []).
  - destruct skip; [|apply IH].
    destruct (matchAt r bef (c :: t)) as [mt|] eqn:Hm; [|apply IH].
    constructor; [|apply IH]. by apply (matchAt_captures r bef (c :: t)).
Qed.

Lemma patterns_capture : Forall (λ r, captures r = true) patterns.
Proof. repeat constructor. Qed.

(** [match[1]] is a string for every match of every one of the six patterns,
    so the extractor never reads a property of [undefined]. *)
Lemma match1_defined pattern text :
  pattern ∈ patterns → Forall is_Some (matchAll1 pattern text).
Proof.
  intros Hin. unfold matchAll1, matches. apply Forall_fmap.
  apply scan_captures.
  by apply (proj1 (Forall_forall _ _) patterns_capture).
Qed.

(** ** Fallback extraction *)

(** C9. On the reply [Here are some picks: "Inception" (2010), "Arrival"
    (2016)], which [JSON.parse] rejects, the extractor returns exactly
    [Inception] and [Arrival], without the year annotations; the two titles
    come from the patterns, so the line-by-line fallback, taken only when the
    patterns find nothing, is not used. *)
Theorem extract_picks :
  extractMovieTitlesFromText picks = [lit "Inception"; lit "Arrival"]
  ∧ patternTitles picks = [lit "Inception"; lit "Arrival"]
  ∧ JSON_parse picks = None.
Proof. vm_compute. done. Qed.

(** ** Normalization of provider payloads *)

Lemma numOrNull_zero n : isZero n = true → numOrNull n = BNull.
Proof.
  intros Hz. unfold numOrNull, truthyNumber.
  destruct n; try done. by rewrite Hz.
Qed.

Lemma numOrNull_never_zero n : isZeroNumber (numOrNull n) = false.
Proof.
  unfold numOrNull, truthyNumber.
  destruct n as [|neg|neg mant exp]; try done.
  remember (Dec neg mant exp) as d eqn:Hd.
  destruct (isZero d) eqn:Hz; simpl; [done|].
  exact Hz.
Qed.

(** C10. In both copies of formatMovieData a [Year] or [imdbRating] that
    parses to the number zero is stored as [null], and the stored year and
    rating are never the number zero. *)
Theorem formatMovieData_zero_is_null (omdbData : OmdbData) :
  (isZero (parseInt (Year omdbData)) = true →
     year (cols (formatMovieData omdbData)) = BNull
     ∧ year (cols (formatMovieData_movies omdbData)) = BNull)
  ∧ (isZero (parseFloat (imdbRating omdbData)) = true →
     imdb_rating (cols (formatMovieData omdbData)) = BNull
     ∧ imdb_rating (cols (formatMovieData_movies omdbData)) = BNull)
  ∧ isZeroNumber (year (cols (formatMovieData omdbData))) = false
  ∧ isZeroNumber (year (cols (formatMovieData_movies omdbData))) = false
  ∧ isZeroNumber (imdb_rating (cols (formatMovieData omdbData))) = false
  ∧ isZeroNumber (imdb_rating (cols (formatMovieData_movies omdbData))) = false.
Proof.
  repeat split; simpl;
    try (apply numOrNull_zero; assumption);
    apply numOrNull_never_zero.
Qed.

Lemma formatMovieData_zero_is_null_witness :
  year (cols (formatMovieData zeroPayload)) = BNull
  ∧ imdb_rating (cols (formatMovieData_movies zeroPayload)) = BNull.
Proof.
  destruct (formatMovieData_zero_is_null zeroPayload) as (Hy & Hr & _).
  split.
  - apply Hy. reflexivity.
  - apply Hr. reflexivity.
Defined.

(** ** The prompt hash *)

(** C8. Two prompts that are equal after lower-casing and trimming have the
    same prompt hash. *)
Theorem promptHash_normalized (toLowerCase : jsstring → jsstring) (p1 p2 : jsstring) :
  trim (toLowerCase p1) = trim (toLowerCase p2) →
  promptHash toLowerCase p1 = promptHash toLowerCase p2.
Proof. unfold promptHash. intros ->. reflexivity. Qed.

Lemma promptHash_normalized_witness :
  promptHash lowerAscii (lit "  Dark THRILLER ") = promptHash lowerAscii (lit "dark thriller").
Proof. apply promptHash_normalized. reflexivity. Defined.

(** The digest itself, on an ASCII prompt. *)
Example promptHash_dark_thriller :
  promptHash lowerAscii (lit "  Dark THRILLER ")
  = lit "3f5e00bf180a3fd272100781ff6fd5812593d8d873d694b0b66ff451987a02ab".
Proof. vm_compute. reflexivity. Qed.

(** ** The recommendation cache: reads *)

Lemma selectLive_expired (d : Db) (h : jsstring) (now e : Z) (row : AiRow) :
  ai_recommendations_cache d !! h = Some row →
  expires_at row = Some e → (e ≤ now)%Z →
  selectLive d h now = [].
Proof.
  intros Hrow He Hle. unfold selectLive. rewrite Hrow, He.
  destruct (now <? e)%Z eqn:Hlt; [|done].
  apply Z.ltb_lt in Hlt. lia.
Qed.

Lemma selectLive_live (d : Db) (h : jsstring) (now e : Z) (row : AiRow) :
  ai_recommendations_cache d !! h = Some row →
  expires_at row = Some e → (now < e)%Z →
  selectLive d h now = [row].
Proof.
  intros Hrow He Hlt. unfold selectLive. rewrite Hrow, He.
  apply Z.ltb_lt in Hlt. by rewrite Hlt.
Qed.

Lemma postAI_accepted toLowerCase generate prompt now later d :
  accepted prompt →
  postAI toLowerCase generate prompt now later d
  = match get d (promptHash toLowerCase prompt) now with
    | Hit reply => (ServedFromCache reply, d)
    | Miss =>
        match generate prompt d with
        | (GenFailed error details, d1) => (ServerError error details, d1)
        | (GenOk explanation detailed, d1) =>
            let response := responseOf explanation detailed prompt in
            (ServedFromAi response,
             (put later (promptHash toLowerCase prompt) prompt (RawValue response) d1).1)
        end
    end.
Proof.
  intros [Hne Hlen]. unfold postAI, strEqb.
  rewrite bool_decide_eq_false_2 by done.
  destruct (500 <? length prompt)%nat eqn:Hlong; [|done].
  apply Nat.ltb_lt in Hlong. lia.
Qed.

(** C7. A row whose [expires_at] lies in the past is not served: the read
    reports a miss although the row is still in the table. *)
Theorem get_expired_is_miss (d : Db) (h : jsstring) (now e : Z) (row : AiRow) :
  ai_recommendations_cache d !! h = Some row →
  expires_at row = Some e →
  (e < now)%Z →
  get d h now = Miss.
Proof.
  intros Hrow He Hlt. unfold get.
  rewrite (selectLive_expired d h now e row) by (done || lia). done.
Qed.

Lemma get_expired_is_miss_witness :
  get (oneRow (lit "3f5e") (RawValue (JArr []))) (lit "3f5e") (DAY + 1) = Miss.
Proof.
  apply (get_expired_is_miss _ _ _ DAY (mkAiRow (lit "dark thriller") (RawValue (JArr [])) 0 (Some DAY))).
  - apply lookup_singleton_eq.
  - reflexivity.
  - lia.
Defined.

Lemma unparsable_reply (row : AiRow) :
  unparsable (recommendations row) →
  cachedRecommendations (replyFromRow row) = []
  ∧ (recommendations row ≠ RawBuffer objectObject → warned (replyFromRow row) = true).
Proof.
  unfold replyFromRow, parseCached, unparsable.
  destruct (recommendations row) as [text | v]; simpl.
  - intros Hp. unfold strEqb. case_bool_decide as Hoo.
    + subst text. split; [done|]. intros Hne. done.
    + rewrite Hp. done.
  - destruct v; try done. intros Hp. rewrite Hp. done.
Qed.

Lemma get_live (d : Db) (h : jsstring) (now e : Z) (row : AiRow) :
  ai_recommendations_cache d !! h = Some row →
  expires_at row = Some e → (now < e)%Z →
  get d h now = Hit (replyFromRow row).
Proof. intros Hrow He Hlt. unfold get. by rewrite (selectLive_live d h now e row). Qed.

Lemma postAI_live toLowerCase generate prompt now later d e row :
  accepted prompt →
  ai_recommendations_cache d !! promptHash toLowerCase prompt = Some row →
  expires_at row = Some e → (now < e)%Z →
  postAI toLowerCase generate prompt now later d
  = (ServedFromCache (replyFromRow row), d).
Proof.
  intros Hacc Hrow He Hlt. rewrite postAI_accepted by done.
  by rewrite (get_live _ _ _ e row).
Qed.

(** C2, as the code has it. A live row is always served, whatever its
    payload: the read never raises and never reports a miss, and the handler
    answers from the cache without generating anything. When the payload is
    text that cannot be parsed, the reply carries an empty list, and the
    failed parse is logged as a warning (except for a Buffer holding the
    text [[object Object]], which is set aside without parsing). *)
Theorem get_live_row_is_served (d : Db) (h : jsstring) (now e : Z) (row : AiRow) :
  ai_recommendations_cache d !! h = Some row →
  expires_at row = Some e →
  (now < e)%Z →
  get d h now = Hit (replyFromRow row)
  ∧ (∀ toLowerCase generate prompt later,
       accepted prompt → promptHash toLowerCase prompt = h →
       postAI toLowerCase generate prompt now later d
       = (ServedFromCache (replyFromRow row), d))
  ∧ (unparsable (recommendations row) →
       cachedRecommendations (replyFromRow row) = []
       ∧ (recommendations row ≠ RawBuffer objectObject →
          warned (replyFromRow row) = true)).
Proof.
  intros Hrow He Hlt. split; [by apply (get_live _ _ _ e)|]. split.
  - intros toLowerCase generate prompt later Hacc Hh. subst h.
    by apply (postAI_live _ _ _ _ _ _ e).
  - apply unparsable_reply.
Qed.

Lemma get_live_row_is_served_witness :
  get (oneRow (lit "3f5e") garbage) (lit "3f5e") 10
  = Hit (replyFromRow (mkAiRow (lit "dark thriller") garbage 0 (Some DAY))).
Proof.
  apply (get_live_row_is_served _ _ _ DAY).
  - apply lookup_singleton_eq.
  - reflexivity.
  - reflexivity.
Defined.

Lemma accepted_dark_thriller : accepted (lit "dark thriller").
Proof. split; [done | vm_compute; lia]. Qed.

(** C2 fails as stated: with the unparsable payload [not json] in a live row
    the read is a hit, not a miss; the handler answers from the cache with an
    empty list and does not generate, whereas on an empty table it
    generates. *)
Lemma garbage_row_is_a_hit :
  let h := promptHash lowerAscii (lit "dark thriller") in
  let d := oneRow h garbage in
  unparsable garbage
  ∧ get d h 10 = Hit (mkCachedReply [] (JStr (lit "dark thriller")) true)
  ∧ get d h 10 ≠ Miss
  ∧ get emptyDb h 10 = Miss
  ∧ postAI lowerAscii (freshAnswer "fresh") (lit "dark thriller") 10 11 d
    = (ServedFromCache (mkCachedReply [] (JStr (lit "dark thriller")) true), d)
  ∧ (postAI lowerAscii (freshAnswer "fresh") (lit "dark thriller") 10 11 emptyDb).1
    = ServedFromAi (responseOf (JStr (lit "fresh")) [JStr (lit "fresh")] (lit "dark thriller")).
Proof.
  intros h d.
  assert (Hrow : ai_recommendations_cache d !! h
                 = Some (mkAiRow (lit "dark thriller") garbage 0 (Some DAY))).
  { apply lookup_singleton_eq. }
  assert (Hreply : replyFromRow (mkAiRow (lit "dark thriller") garbage 0 (Some DAY))
                   = mkCachedReply [] (JStr (lit "dark thriller")) true).
  { vm_compute. reflexivity. }
  assert (Hget : get d h 10 = Hit (mkCachedReply [] (JStr (lit "dark thriller")) true)).
  { rewrite <- Hreply. by apply (get_live _ _ _ DAY). }
  split; [vm_compute; reflexivity|].
  split; [exact Hget|].
  split; [rewrite Hget; done|].
  split; [reflexivity|].
  split.
  - rewrite <- Hreply.
    by apply (postAI_live _ _ _ _ _ _ DAY _ accepted_dark_thriller Hrow).
  - rewrite postAI_accepted by apply accepted_dark_thriller. reflexivity.
Qed.

(** ** The recommendation cache: writes *)

Lemma insert_duplicate now h prompt payload (d : Db) (row : AiRow) :
  ai_recommendations_cache d !! h = Some row →
  insertRecommendations now h prompt payload d = inl (Error (lit "ER_DUP_ENTRY")).
Proof. intros Hrow. unfold insertRecommendations. by rewrite Hrow. Qed.

(** A write for a hash that has a row, live or expired, changes nothing and
    logs the error. *)
Lemma put_existing now h prompt payload (d : Db) (row : AiRow) :
  ai_recommendations_cache d !! h = Some row →
  put now h prompt payload d = (d, true).
Proof. intros Hrow. unfold put. by rewrite (insert_duplicate _ _ _ _ _ row). Qed.

(** A write for a hash that has no row inserts one that expires a day later. *)
Lemma put_fresh now h prompt payload (d : Db) :
  ai_recommendations_cache d !! h = None →
  ai_recommendations_cache (put now h prompt payload d).1 !! h
  = Some (mkAiRow prompt payload now (Some (now + DAY)%Z))
  ∧ (put now h prompt payload d).2 = false.
Proof.
  intros Hnone. unfold put, insertRecommendations. rewrite Hnone. simpl.
  split; [apply lookup_insert_eq | done].
Qed.

(** Once the expired rows are purged the hash is free again. *)
Lemma clearCache_frees now h (d : Db) (row : AiRow) (e : Z) :
  ai_recommendations_cache d !! h = Some row →
  expires_at row = Some e → (e ≤ now)%Z →
  ai_recommendations_cache (clearCache now d) !! h = None.
Proof.
  intros Hrow He Hle. unfold clearCache. simpl.
  apply map_lookup_filter_None. right. intros row' Hrow'. simpl.
  rewrite Hrow in Hrow'. injection Hrow' as <-.
  unfold expired. rewrite He.
  assert ((e <=? now)%Z = true) as -> by (apply Z.leb_le; lia). done.
Qed.

(** The handler on a hash whose row has expired: it generates, the write
    fails, and the store is what generating left. *)
Lemma postAI_stale toLowerCase generate prompt now later (d d1 : Db) (e : Z)
    (row row1 : AiRow) explanation detailed :
  accepted prompt →
  ai_recommendations_cache d !! promptHash toLowerCase prompt = Some row →
  expires_at row = Some e → (e ≤ now)%Z →
  generate prompt d = (GenOk explanation detailed, d1) →
  ai_recommendations_cache d1 !! promptHash toLowerCase prompt = Some row1 →
  postAI toLowerCase generate prompt now later d
  = (ServedFromAi (responseOf explanation detailed prompt), d1).
Proof.
  intros Hacc Hrow He Hle Hgen Hrow1. rewrite postAI_accepted by done.
  unfold get. rewrite (selectLive_expired d _ now e row Hrow He Hle).
  rewrite Hgen. cbv zeta.
  rewrite (put_existing later _ prompt _ d1 row1 Hrow1). reflexivity.
Qed.

(** The handler on a hash that has no row: it generates and the write
    inserts the answer. *)
Lemma postAI_cold toLowerCase generate prompt now later (d d1 : Db)
    explanation detailed :
  accepted prompt →
  ai_recommendations_cache d !! promptHash toLowerCase prompt = None →
  generate prompt d = (GenOk explanation detailed, d1) →
  postAI toLowerCase generate prompt now later d
  = (ServedFromAi (responseOf explanation detailed prompt),
     (put later (promptHash toLowerCase prompt) prompt
        (RawValue (responseOf explanation detailed prompt)) d1).1).
Proof.
  intros Hacc Hnone Hgen. rewrite postAI_accepted by done.
  unfold get, selectLive. rewrite Hnone, Hgen. reflexivity.
Qed.

Lemma freshAnswer_eq tag prompt (d : Db) :
  freshAnswer tag prompt d = (GenOk (JStr (lit tag)) [JStr (lit tag)], d).
Proof. reflexivity. Qed.

(** C1, on the code. The write is a plain insert on a unique key. After a
    first answer for [dark thriller] has been cached at time 5, (a) a second
    write for the same hash one second later fails with a duplicate-key error
    and the row keeps the first payload, and (b) two days later, when the row
    has expired and the handler has generated a new answer, the write fails
    again: the table is left as it was and there is no live entry for the
    hash. *)
Theorem put_does_not_overwrite :
  let prompt := lit "dark thriller" in
  let h := promptHash lowerAscii prompt in
  let first := RawValue (responseOf (JStr (lit "first")) [JStr (lit "first")] prompt) in
  let second := RawValue (responseOf (JStr (lit "second")) [JStr (lit "second")] prompt) in
  let d1 := (postAI lowerAscii (freshAnswer "first") prompt 0 5 emptyDb).2 in
  let d2 := (postAI lowerAscii (freshAnswer "second") prompt (2 * DAY) (2 * DAY + 5) d1).2 in
  ai_recommendations_cache d1 !! h = Some (mkAiRow prompt first 5 (Some (5 + DAY)%Z))
  ∧ insertRecommendations 6 h prompt second d1 = inl (Error (lit "ER_DUP_ENTRY"))
  ∧ put 6 h prompt second d1 = (d1, true)
  ∧ get d1 h (2 * DAY) = Miss
  ∧ (postAI lowerAscii (freshAnswer "second") prompt (2 * DAY) (2 * DAY + 5) d1).1
    = ServedFromAi (responseOf (JStr (lit "second")) [JStr (lit "second")] prompt)
  ∧ d2 = d1
  ∧ get d2 h (2 * DAY + 5) = Miss.
Proof.
  intros prompt h first second d1 d2.
  assert (Hacc : accepted prompt) by apply accepted_dark_thriller.
  assert (Hday : (5 + DAY ≤ 2 * DAY)%Z) by (unfold DAY; lia).
  assert (Hh : h = promptHash lowerAscii prompt) by reflexivity.
  clearbody h.
  assert (Hd1 : d1 = (put 5 h prompt first emptyDb).1).
  { unfold d1. rewrite Hh.
    rewrite (postAI_cold lowerAscii (freshAnswer "first") prompt 0 5 emptyDb emptyDb
               (JStr (lit "first")) [JStr (lit "first")] Hacc
               (lookup_empty _) (freshAnswer_eq _ _ _)).
    reflexivity. }
  clearbody d1.
  assert (Hrow : ai_recommendations_cache d1 !! h
                 = Some (mkAiRow prompt first 5 (Some (5 + DAY)%Z))).
  { rewrite Hd1. apply put_fresh. apply lookup_empty. }
  assert (Hmiss : ∀ now, (5 + DAY < now)%Z → get d1 h now = Miss).
  { intros now Hnow. unfold get.
    rewrite (selectLive_expired d1 h now (5 + DAY) _ Hrow eq_refl) by lia. done. }
  assert (Hpost : postAI lowerAscii (freshAnswer "second") prompt (2 * DAY) (2 * DAY + 5) d1
                  = (ServedFromAi (responseOf (JStr (lit "second")) [JStr (lit "second")] prompt),
                     d1)).
  { rewrite Hh in Hrow.
    apply (postAI_stale lowerAscii (freshAnswer "second") prompt (2 * DAY) (2 * DAY + 5)
             d1 d1 (5 + DAY) _ _ (JStr (lit "second")) [JStr (lit "second")]
             Hacc Hrow eq_refl Hday (freshAnswer_eq _ _ _) Hrow). }
  assert (Hd2 : d2 = d1) by (unfold d2; rewrite Hpost; reflexivity).
  clearbody d2.
  split; [exact Hrow|].
  split; [exact (insert_duplicate _ _ _ _ _ _ Hrow)|].
  split; [exact (put_existing _ _ _ _ _ _ Hrow)|].
  split; [apply Hmiss; unfold DAY; lia|].
  split; [rewrite Hpost; reflexivity|].
  split; [exact Hd2|].
  rewrite Hd2. apply Hmiss. unfold DAY. lia.
Qed.

(** ** The movie cache *)

Lemma cacheMovie_bindable now (movieData : MovieData) (d : Db) (key : jsstring) :
  bindable (cols movieData) = true →
  imdb_id (cols movieData) = Some key →
  movies_cache (cacheMovie now movieData d)
  = <[key := mkMovieRow (cols movieData)
               (match movies_cache d !! key with
                | Some old => created_at old
                | None => now
                end)]> (movies_cache d).
Proof.
  intros Hb Hk. unfold cacheMovie, insertMovie. rewrite Hb, Hk. simpl.
  by destruct (movies_cache d !! key).
Qed.




(** ** Reconciliation *)

Section ReconcileFacts.

Variable provider : nat → Request → Outcome.
Variable OMDB_API_KEY : JsValue.
Variable titleLike : JsValue → jsstring → bool.

Local Abbreviation run := (getMovieDetailsForRecommendations provider OMDB_API_KEY titleLike).
Local Abbreviation step := (detailsFor provider OMDB_API_KEY titleLike).

Lemma placeholderFor_basic movieData plotText error :
  lit plotText ∈ [ lit "Plot information unavailable";
                   lit "Movie details not available";
                   lit "Error fetching movie details" ] →
  ∃ info, basic movieData plotText error = BasicItem info ∧ placeholderFor movieData info.
Proof. intros Hp. eexists. split; [reflexivity|]. repeat split. exact Hp. Qed.

Lemma detailsFor_unresolved now movieData (w : World) :
  unresolved provider OMDB_API_KEY titleLike movieData w →
  ∃ info w',
    step now movieData w = (BasicItem info, w')
    ∧ placeholderFor movieData info
    ∧ db w' = db w.
Proof.
  intros [Hsel Hwhy]. unfold detailsFor. rewrite Hsel.
  destruct (truthy OMDB_API_KEY) eqn:Hkey; simpl.
  - destruct Hwhy as [Hk | [[msg Hthrew] | (data & Hrep & Hresp)]]; [done| |].
    + rewrite Hthrew.
      destruct (placeholderFor_basic movieData "Error fetching movie details"
                  (Some "Fetch failed"%string)) as (info & -> & Hinfo).
      { solve [repeat constructor]. }
      eauto.
    + rewrite Hrep. rewrite bool_decide_eq_false_2 by done.
      destruct (placeholderFor_basic movieData "Movie details not available"
                  (Some "Details not found"%string)) as (info & -> & Hinfo).
      { solve [repeat constructor]. }
      eauto.
  - destruct (placeholderFor_basic movieData "Plot information unavailable" None)
      as (info & -> & Hinfo).
    { solve [repeat constructor]. }
    eauto.
Qed.

Lemma detailsLoop_acc now movieTitles (w : World) acc :
  detailsLoop provider OMDB_API_KEY titleLike now movieTitles w acc
  = (acc ++ (run now movieTitles w).1, (run now movieTitles w).2).
Proof.
  unfold getMovieDetailsForRecommendations.
  revert w acc. induction movieTitles as [|movieData rest IH]; intros w acc; simpl.
  - by rewrite app_nil_r.
  - destruct (step now movieData w) as [item w'].
    rewrite (IH w' (acc ++ [item])), (IH w' [item]). simpl.
    by rewrite <- app_assoc.
Qed.

Lemma run_cons now movieData rest (w : World) :
  run now (movieData :: rest) w
  = ((step now movieData w).1 :: (run now rest (step now movieData w).2).1,
     (run now rest (step now movieData w).2).2).
Proof.
  unfold getMovieDetailsForRecommendations at 1. simpl.
  destruct (step now movieData w) as [item w']. by rewrite detailsLoop_acc.
Qed.

Lemma run_app now before after (w : World) :
  run now (before ++ after) w
  = ((run now before w).1 ++ (run now after (run now before w).2).1,
     (run now after (run now before w).2).2).
Proof.
  revert w. induction before as [|movieData rest IH]; intros w.
  - simpl. by destruct (run now after w).
  - rewrite <- app_comm_cons, !run_cons, IH. reflexivity.
Qed.

(** Every candidate yields exactly one item: the loop never stops early. *)
Lemma run_length now movieTitles (w : World) :
  length (run now movieTitles w).1 = length movieTitles.
Proof.
  revert w. induction movieTitles as [|movieData rest IH]; intros w; [done|].
  rewrite run_cons. simpl. by rewrite IH.
Qed.

(** C4. A candidate that cannot be resolved is answered with a placeholder
    carrying its title, year and rationale and the values that mark the rest
    as unavailable; the store is left as it was; the function is total (it
    does not throw) and goes on to reconcile the candidates that follow, so
    that the result has one item per candidate. *)
Theorem unresolved_candidate_placeholder now (before : list Candidate)
    (movieData : Candidate) (after : list Candidate) (w : World) :
  unresolved provider OMDB_API_KEY titleLike movieData (run now before w).2 →
  ∃ info w',
    step now movieData (run now before w).2 = (BasicItem info, w')
    ∧ placeholderFor movieData info
    ∧ db w' = db (run now before w).2
    ∧ run now (before ++ movieData :: after) w
      = ((run now before w).1 ++ BasicItem info :: (run now after w').1,
         (run now after w').2)
    ∧ length (run now (before ++ movieData :: after) w).1
      = length (before ++ movieData :: after).
Proof.
  intros Hun.
  destruct (detailsFor_unresolved now movieData _ Hun) as (info & w' & Hstep & Hinfo & Hdb).
  exists info, w'. split; [exact Hstep|]. split; [exact Hinfo|]. split; [exact Hdb|].
  split; [|apply run_length].
  rewrite run_app, run_cons, Hstep. reflexivity.
Qed.

End ReconcileFacts.

Lemma unresolved_candidate_placeholder_witness :
  ∃ info w',
    detailsFor unreachable (JStr (lit "k")) noMatch 0 (candidate "Inception" "dreams")
      (getMovieDetailsForRecommendations unreachable (JStr (lit "k")) noMatch 0 [] emptyWorld).2
    = (BasicItem info, w')
    ∧ placeholderFor (candidate "Inception" "dreams") info
    ∧ db w'
      = db (getMovieDetailsForRecommendations unreachable (JStr (lit "k")) noMatch 0 []
              emptyWorld).2
    ∧ getMovieDetailsForRecommendations unreachable (JStr (lit "k")) noMatch 0
        ([] ++ candidate "Inception" "dreams" :: [candidate "Arrival" "aliens"]) emptyWorld
      = ((getMovieDetailsForRecommendations unreachable (JStr (lit "k")) noMatch 0 []
            emptyWorld).1
           ++ BasicItem info
           :: (getMovieDetailsForRecommendations unreachable (JStr (lit "k")) noMatch 0
                 [candidate "Arrival" "aliens"] w').1,
         (getMovieDetailsForRecommendations unreachable (JStr (lit "k")) noMatch 0
            [candidate "Arrival" "aliens"] w').2)
    ∧ length (getMovieDetailsForRecommendations unreachable (JStr (lit "k")) noMatch 0
                ([] ++ candidate "Inception" "dreams" :: [candidate "Arrival" "aliens"])
                emptyWorld).1
      = length ([] ++ candidate "Inception" "dreams" :: [candidate "Arrival" "aliens"]).
Proof.
  apply (unresolved_candidate_placeholder unreachable (JStr (lit "k")) noMatch 0 []
           (candidate "Inception" "dreams") [candidate "Arrival" "aliens"] emptyWorld).
  split.
  - reflexivity.
  - right. left. exists (lit "ETIMEDOUT"). reflexivity.
Defined.

(** ** Retries against the provider *)

Section FetchFacts.

Variable provider : nat → Request → Outcome.

(** A reply, whatever it says, ends the call at once: a reply flagged
    [False] (nothing found) is returned like any other, with no further
    request and no pause. *)
Lemma fetchOmdb_reply params (w : World) data :
  provider (length (requests w)) (mkRequest true params 5000) = Replied data →
  fetchOmdb_default provider params w
  = (Returned (Some data), send (mkRequest true params 5000) w).
Proof. intros Hrep. unfold fetchOmdb_default, fetchOmdb. simpl. by rewrite Hrep. Qed.

(** Three failures in a row: three requests, pauses of 500 and 1000
    milliseconds between them, and the third error is thrown. *)
Lemma fetchOmdb_gives_up params (w : World) e1 e2 e3 :
  let req := mkRequest true params 5000 in
  provider (length (requests w)) req = Threw e1 →
  provider (S (length (requests w))) req = Threw e2 →
  provider (S (S (length (requests w)))) req = Threw e3 →
  fetchOmdb_default provider params w
  = (Thrown e3, mkWorld (db w) (requests w ++ [req; req; req]) (slept w ++ [500; 1000])).
Proof.
  intros req H1 H2 H3. unfold fetchOmdb_default, fetchOmdb. simpl.
  fold req. rewrite H1. simpl. rewrite length_app. simpl.
  rewrite Nat.add_1_r, H2. simpl. rewrite !length_app. simpl.
  rewrite !Nat.add_1_r, H3. unfold send, sleep. simpl.
  by rewrite <- !app_assoc.
Qed.

(** A call sends at most [retries] requests. *)
Lemma attempts_bound remaining attempt retries params tmo (w : World) :
  (length (requests (attempts provider remaining attempt retries params tmo w).2)
   ≤ length (requests w) + remaining)%nat.
Proof.
  revert attempt w. induction remaining as [|n IH]; intros attempt w; simpl; [lia|].
  destruct (provider _ _).
  - destruct (attempt =? retries)%nat; simpl.
    + rewrite length_app. simpl. lia.
    + etrans; [apply IH|]. simpl. rewrite length_app. simpl. lia.
  - simpl. rewrite length_app. simpl. lia.
Qed.

End FetchFacts.

(** C6, on the code. Against a provider whose first request fails,
    fetchOmdb (movies.js) pauses 500 ms, asks again and returns the reply;
    getMovieDetailsForRecommendations (recommendations.js) sends one request
    over plain HTTP through [axios.get], does not ask again and answers with
    the placeholder [Fetch failed]. *)
Theorem retry_is_not_uniform :
  let movieData := candidate "Inception" "dreams" in
  let key := JStr (lit "k") in
  let params := params (omdbRequest key movieData) in
  fetchOmdb_default flaky params emptyWorld
  = (Returned (Some found),
     mkWorld emptyDb [mkRequest true params 5000; mkRequest true params 5000] [500])
  ∧ detailsFor flaky key noMatch 0 movieData emptyWorld
    = (basic movieData "Error fetching movie details" (Some "Fetch failed"%string),
       mkWorld emptyDb [mkRequest false params 10000] []).
Proof. split; reflexivity. Qed.

(** ** Generation *)

Lemma ownProp_fallback_movies (l : list JsValue) e :
  ownProp [ (lit "explanation", e); (lit "movies", JArr l) ] (lit "movies")
  = Some (JArr l).
Proof. reflexivity. Qed.

Lemma ownProp_fallback_explanation (l : list JsValue) e :
  ownProp [ (lit "explanation", e); (lit "movies", JArr l) ] (lit "explanation")
  = Some e.
Proof. reflexivity. Qed.

Lemma toCandidate_title (t : jsstring) :
  ∃ c, toCandidate (JObj [ (lit "title", JStr t); (lit "year", JNull);
                           (lit "reason", JStr (lit "Recommended by AI")) ])
       = inr c.
Proof. eexists. reflexivity. Qed.

Lemma mapE_titles (titles : list jsstring) :
  ∃ cs, mapE toCandidate
          ((λ t, JObj [ (lit "title", JStr t); (lit "year", JNull);
                        (lit "reason", JStr (lit "Recommended by AI")) ]) <$> titles)
        = inr cs.
Proof.
  induction titles as [|t rest [cs IH]]; [by eexists|].
  destruct (toCandidate_title t) as [c Hc].
  exists (c :: cs). rewrite fmap_cons. cbn [mapE]. rewrite Hc, IH. reflexivity.
Qed.

Lemma getProp_readable v name : readable v → ∃ x, getProp v name = inr x.
Proof. intros [Hn Hu]. destruct v; try done; by eexists. Qed.

Lemma toCandidate_readable m : readable m → ∃ c, toCandidate m = inr c.
Proof.
  intros Hm. unfold toCandidate.
  destruct (getProp_readable m (lit "title") Hm) as [t ->].
  destruct (getProp_readable m (lit "year") Hm) as [y ->].
  destruct (getProp_readable m (lit "reason") Hm) as [r ->].
  by eexists.
Qed.

Lemma mapE_readable items : Forall readable items → ∃ cs, mapE toCandidate items = inr cs.
Proof.
  induction 1 as [|m rest Hm _ [cs IH]]; [by eexists|].
  destruct (toCandidate_readable m Hm) as [c Hc].
  exists (c :: cs). cbn [mapE]. rewrite Hc, IH. reflexivity.
Qed.

Lemma moviesOf_Some v items :
  moviesOf v = Some items → getProp v (lit "movies") = inr (JArr items) ∧ readable v.
Proof.
  unfold moviesOf. destruct (getProp v (lit "movies")) as [e|x] eqn:Hg; [done|].
  destruct x; try done. intros [= ->]. split; [done|].
  split; intros ->; done.
Qed.

Lemma validate_ok v items :
  moviesOf v = Some items → items ≠ [] → Forall readable items →
  ∃ explanation cs, validate v = inr (Success explanation cs).
Proof.
  intros Hm Hne Hall. destruct (moviesOf_Some v items Hm) as [Hg Hv].
  unfold validate. rewrite Hg. cbn [bind].
  destruct items as [|m rest]; [done|]. cbn [length Nat.eqb].
  destruct (getProp_readable v (lit "explanation") Hv) as [x ->]. cbn [bind].
  destruct (mapE_readable (m :: rest) Hall) as [cs ->]. cbn [bind].
  by eexists _, _.
Qed.

Lemma validate_rejects v :
  moviesOf v = None ∨ moviesOf v = Some [] → ∃ e, validate v = inl e.
Proof.
  unfold moviesOf, validate.
  destruct (getProp v (lit "movies")) as [e|x]; cbn [bind]; [by eexists|].
  destruct x as [| | | | |items|]; try by eexists.
  intros [H|H]; [done|]. injection H as ->. by eexists.
Qed.

Lemma validate_fallback (titles : list jsstring) :
  titles ≠ [] →
  ∃ explanation cs, validate (fallbackResponse titles) = inr (Success explanation cs).
Proof.
  intros Hne. unfold validate, fallbackResponse, getProp.
  rewrite ownProp_fallback_movies. cbn [from_option id bind].
  rewrite length_fmap.
  destruct titles as [|t rest]; [done|]. cbn [length Nat.eqb].
  rewrite ownProp_fallback_explanation. cbn [from_option id bind].
  destruct (mapE_titles (t :: rest)) as [cs ->]. cbn [bind].
  by eexists _, _.
Qed.

Lemma describe_plain_failed e : failed (describe (Plain e)) = true.
Proof. reflexivity. Qed.

(** C3, as the code has it. The fallback extraction is tried only when the
    strict parse throws. When it throws and no title can be extracted the
    call fails ([Could not extract movie titles from AI response]); when it
    throws and at least one title is extracted the call succeeds. When the
    strict parse succeeds the text is never searched: a parsed value without
    a non-empty array [movies] makes the call fail, and one with a non-empty
    array [movies] of readable entries makes it succeed. *)
Theorem fromContent_cases (aiContent : jsstring) :
  (JSON_parse aiContent = None →
     extractMovieTitlesFromText aiContent = [] →
     fromContent aiContent
     = Failure genericError
         (Text (JStr (lit "Could not extract movie titles from AI response"))))
  ∧ (JSON_parse aiContent = None →
     extractMovieTitlesFromText aiContent ≠ [] →
     failed (fromContent aiContent) = false)
  ∧ (∀ v, JSON_parse aiContent = Some v →
     moviesOf v = None ∨ moviesOf v = Some [] →
     failed (fromContent aiContent) = true)
  ∧ (∀ v items, JSON_parse aiContent = Some v →
     moviesOf v = Some items → items ≠ [] → Forall readable items →
     failed (fromContent aiContent) = false).
Proof.
  unfold fromContent, parseResponse. repeat split.
  - intros -> ->. reflexivity.
  - intros -> Hne.
    destruct (validate_fallback _ Hne) as (x & cs & Hv).
    destruct (extractMovieTitlesFromText aiContent) as [|t rest]; [done|].
    cbn [length Nat.eqb bind]. rewrite Hv. reflexivity.
  - intros v -> Hv. cbn [bind].
    destruct (validate_rejects v Hv) as [e ->]. apply describe_plain_failed.
  - intros v items -> Hm Hne Hall. cbn [bind].
    destruct (validate_ok v items Hm Hne Hall) as (x & cs & ->). reflexivity.
Qed.

Lemma fromContent_cases_witness : failed (fromContent picks) = false.
Proof.
  destruct (fromContent_cases picks) as (_ & Hfallback & _).
  apply Hfallback.
  - vm_compute. reflexivity.
  - vm_compute. discriminate.
Defined.

(** C3 fails as stated: on [{"explanation":"none"}] the strict parse
    succeeds and the extraction would find titles in the text, yet the call
    fails with [Invalid response format from AI]. *)
Lemma parsed_reply_without_movies_fails :
  JSON_parse noMovies = Some (JObj [ (lit "explanation", JStr (lit "none")) ])
  ∧ extractMovieTitlesFromText noMovies = [lit "explanation"; lit "none"]
  ∧ fromContent noMovies
    = Failure genericError (Text (JStr (lit "Invalid response format from AI")))
  ∧ ¬ (failed (fromContent noMovies) = true →
       JSON_parse noMovies = None ∧ extractMovieTitlesFromText noMovies = []).
Proof.
  assert (Hp : JSON_parse noMovies = Some (JObj [ (lit "explanation", JStr (lit "none")) ])).
  { vm_compute. reflexivity. }
  assert (Hf : fromContent noMovies
               = Failure genericError (Text (JStr (lit "Invalid response format from AI")))).
  { vm_compute. reflexivity. }
  split; [exact Hp|]. split; [vm_compute; reflexivity|]. split; [exact Hf|].
  intros Hclaim. destruct Hclaim as [Hnone _].
  - rewrite Hf. reflexivity.
  - rewrite Hp in Hnone. discriminate.
Qed.

(** * Further properties of the code *)

(** ** fetchOmdb *)

Section FetchShape.

Variable provider : nat → Request → Outcome.

(** The pauses before attempts [attempt + 1], ..., [attempt + n]. *)
Local Abbreviation pauses attempt n := ((λ i, 500 * N.of_nat i) <$> seq attempt n).

Lemma seq_snoc_front (a n : nat) : a :: seq (S a) n = seq a n ++ [(a + n)%nat].
Proof.
  revert a. induction n as [|n IH]; intros a; simpl.
  - by rewrite Nat.add_0_r.
  - rewrite IH. simpl. by rewrite Nat.add_succ_r.
Qed.

(** What a call leaves behind: the store as it was, at most [remaining]
    further requests, all of them the same HTTPS request, and between two
    requests a pause of 500 ms times the number of the attempt that failed. *)
Lemma attempts_shape remaining attempt retries params tmo (w : World) :
  (attempt + remaining = S retries)%nat →
  ∃ n, (n ≤ remaining)%nat ∧ (0 < remaining → 0 < n)%nat
       ∧ (attempts provider remaining attempt retries params tmo w).2
         = mkWorld (db w)
             (requests w ++ replicate n (mkRequest true params tmo))
             (slept w ++ pauses attempt (n - 1)).
Proof.
  revert attempt w. induction remaining as [|r IH]; intros attempt w Hinv; simpl.
  - exists 0%nat. split; [lia|]. split; [lia|]. destruct w. simpl. by rewrite !app_nil_r.
  - destruct (provider _ _) as [e|data].
    + destruct (attempt =? retries)%nat eqn:Hlast.
      * exists 1%nat. split; [lia|]. split; [lia|]. simpl. by rewrite app_nil_r.
      * apply Nat.eqb_neq in Hlast.
        destruct (IH (S attempt) (sleep (500 * N.of_nat attempt)
                                     (send (mkRequest true params tmo) w)))
          as (n & Hn & Hpos & ->); [lia|].
        exists (S n). split; [lia|]. split; [lia|]. simpl. f_equal.
        -- by rewrite <- app_assoc.
        -- rewrite <- app_assoc. f_equal. simpl.
           destruct n as [|n]; [lia|]. simpl. by rewrite Nat.sub_0_r.
    + exists 1%nat. split; [lia|]. split; [lia|]. simpl. by rewrite app_nil_r.
Qed.

(** X1. Whatever the provider does, fetchOmdb leaves the store untouched and
    sends between one and [retries] requests (none when [retries] is zero),
    each the same HTTPS request with the given time-out; it pauses only
    between two requests, 500 ms after the first failure, 1000 ms after the
    second, and so on. *)
Theorem fetchOmdb_footprint params retries tmo (w : World) :
  ∃ n, (n ≤ retries)%nat ∧ (0 < n ∨ retries = 0)%nat
       ∧ (fetchOmdb provider params retries tmo w).2
         = mkWorld (db w)
             (requests w ++ replicate n (mkRequest true params tmo))
             (slept w ++ pauses 1 (n - 1)).
Proof.
  destruct (attempts_shape retries 1 retries params tmo w) as (n & Hn & Hpos & Hw); [lia|].
  exists n. split; [exact Hn|]. split; [lia|]. exact Hw.
Qed.

Lemma attempts_first_success j : ∀ remaining attempt retries params tmo (w : World) data,
  (j < remaining)%nat →
  (attempt + remaining = S retries)%nat →
  (∀ i, (i < j)%nat →
        ∃ e, provider (length (requests w) + i) (mkRequest true params tmo) = Threw e) →
  provider (length (requests w) + j) (mkRequest true params tmo) = Replied data →
  attempts provider remaining attempt retries params tmo w
  = (Returned (Some data),
     mkWorld (db w)
       (requests w ++ replicate (S j) (mkRequest true params tmo))
       (slept w ++ pauses attempt j)).
Proof.
  induction j as [|j IH]; intros remaining attempt retries params tmo w data Hj Hinv Hfail Hok.
  - destruct remaining as [|r]; [lia|]. simpl.
    rewrite Nat.add_0_r in Hok. rewrite Hok. unfold send. simpl.
    by rewrite app_nil_r.
  - destruct remaining as [|r]; [lia|]. simpl.
    destruct (Hfail 0%nat) as [e He]; [lia|]. rewrite Nat.add_0_r in He. rewrite He.
    assert ((attempt =? retries)%nat = false) as -> by (apply Nat.eqb_neq; lia).
    rewrite (IH r (S attempt) retries params tmo _ data); [| lia | lia | |].
    + simpl. f_equal. f_equal; by rewrite <- app_assoc.
    + intros i Hi. simpl. rewrite length_app. simpl.
      destruct (Hfail (S i)) as [e' He']; [lia|]. exists e'.
      by replace (length (requests w) + 1 + i)%nat with (length (requests w) + S i)%nat by lia.
    + simpl. rewrite length_app. simpl.
      by replace (length (requests w) + 1 + j)%nat with (length (requests w) + S j)%nat by lia.
Qed.

(** X2. When the first [j] requests fail and the next one is answered, with
    [j] below [retries], fetchOmdb returns that answer after exactly [j + 1]
    requests and pauses of 500, 1000, ..., 500 j milliseconds. An answer is
    returned whatever it says: a reply flagged [False] is not retried. *)
Theorem fetchOmdb_first_success params retries tmo (w : World) (j : nat) data :
  (j < retries)%nat →
  (∀ i, (i < j)%nat →
        ∃ e, provider (length (requests w) + i) (mkRequest true params tmo) = Threw e) →
  provider (length (requests w) + j) (mkRequest true params tmo) = Replied data →
  fetchOmdb provider params retries tmo w
  = (Returned (Some data),
     mkWorld (db w)
       (requests w ++ replicate (S j) (mkRequest true params tmo))
       (slept w ++ pauses 1 j)).
Proof. intros Hj Hfail Hok. apply attempts_first_success; (done || lia). Qed.

Lemma attempts_S remaining attempt retries params tmo (w : World) :
  attempts provider (S remaining) attempt retries params tmo w
  = match provider (length (requests w)) (mkRequest true params tmo) with
    | Replied data => (Returned (Some data), send (mkRequest true params tmo) w)
    | Threw err =>
        if (attempt =? retries)%nat then (Thrown err, send (mkRequest true params tmo) w)
        else attempts provider remaining (S attempt) retries params tmo
               (sleep (500 * N.of_nat attempt) (send (mkRequest true params tmo) w))
    end.
Proof. reflexivity. Qed.

Lemma attempts_all_fail remaining : ∀ attempt retries params tmo (w : World) last,
  (attempt + S remaining = S retries)%nat →
  (∀ i, (i < remaining)%nat →
        ∃ e, provider (length (requests w) + i) (mkRequest true params tmo) = Threw e) →
  provider (length (requests w) + remaining) (mkRequest true params tmo) = Threw last →
  attempts provider (S remaining) attempt retries params tmo w
  = (Thrown last,
     mkWorld (db w)
       (requests w ++ replicate (S remaining) (mkRequest true params tmo))
       (slept w ++ pauses attempt remaining)).
Proof.
  induction remaining as [|r IH]; intros attempt retries params tmo w last Hinv Hfail Hlast.
  - simpl. rewrite Nat.add_0_r in Hlast. rewrite Hlast.
    assert ((attempt =? retries)%nat = true) as -> by (apply Nat.eqb_eq; lia).
    unfold send. simpl. by rewrite app_nil_r.
  - rewrite attempts_S.
    destruct (Hfail 0%nat) as [e He]; [lia|]. rewrite Nat.add_0_r in He. rewrite He.
    assert ((attempt =? retries)%nat = false) as -> by (apply Nat.eqb_neq; lia).
    rewrite (IH (S attempt) retries params tmo _ last); [| lia | |].
    + simpl. f_equal. f_equal; by rewrite <- app_assoc.
    + intros i Hi. simpl. rewrite length_app. simpl.
      destruct (Hfail (S i)) as [e' He']; [lia|]. exists e'.
      by replace (length (requests w) + 1 + i)%nat with (length (requests w) + S i)%nat by lia.
    + simpl. rewrite length_app. simpl.
      by replace (length (requests w) + 1 + r)%nat with (length (requests w) + S r)%nat by lia.
Qed.

(** X3. When every one of the [retries] requests fails, fetchOmdb throws
    the error of the last one, after exactly [retries] requests and
    [retries - 1] pauses of 500, 1000, ... milliseconds; there is no pause
    after the last failure. *)
Theorem fetchOmdb_exhausted params retries tmo (w : World) last :
  (0 < retries)%nat →
  (∀ i, (i < retries - 1)%nat →
        ∃ e, provider (length (requests w) + i) (mkRequest true params tmo) = Threw e) →
  provider (length (requests w) + (retries - 1)) (mkRequest true params tmo) = Threw last →
  fetchOmdb provider params retries tmo w
  = (Thrown last,
     mkWorld (db w)
       (requests w ++ replicate retries (mkRequest true params tmo))
       (slept w ++ pauses 1 (retries - 1))).
Proof.
  intros Hpos Hfail Hlast. unfold fetchOmdb.
  destruct retries as [|r]; [lia|]. simpl in Hfail, Hlast. rewrite Nat.sub_0_r in *.
  replace (S r - 1)%nat with r by lia.
  apply attempts_all_fail; (done || lia).
Qed.

(** What fetchOmdb returns was the provider's answer to one of its requests. *)
Lemma attempts_returned remaining : ∀ attempt retries params tmo (w w' : World) data,
  attempts provider remaining attempt retries params tmo w = (Returned (Some data), w') →
  ∃ n, provider n (mkRequest true params tmo) = Replied data.
Proof.
  induction remaining as [|r IH]; intros attempt retries params tmo w w' data; simpl; [done|].
  destruct (provider _ _) as [e|d] eqn:Hp.
  - destruct (attempt =? retries)%nat; [done|]. apply IH.
  - intros [= <- _]. eauto.
Qed.

End FetchShape.

Lemma fetchOmdb_first_success_witness :
  fetchOmdb flaky [] 3 5000 emptyWorld
  = (Returned (Some found),
     mkWorld (db emptyWorld)
       (requests emptyWorld ++ replicate 2 (mkRequest true [] 5000))
       (slept emptyWorld ++ ((λ i, 500 * N.of_nat i) <$> seq 1 1))).
Proof.
  apply (fetchOmdb_first_success flaky [] 3 5000 emptyWorld 1 found).
  - lia.
  - intros i Hi. destruct i; [|lia]. eexists. reflexivity.
  - reflexivity.
Defined.

Lemma fetchOmdb_exhausted_witness :
  fetchOmdb unreachable [] 3 5000 emptyWorld
  = (Thrown (lit "ETIMEDOUT"),
     mkWorld (db emptyWorld)
       (requests emptyWorld ++ replicate 3 (mkRequest true [] 5000))
       (slept emptyWorld ++ ((λ i, 500 * N.of_nat i) <$> seq 1 (3 - 1)))).
Proof.
  apply (fetchOmdb_exhausted unreachable [] 3 5000 emptyWorld (lit "ETIMEDOUT")).
  - lia.
  - intros i Hi. eexists. reflexivity.
  - reflexivity.
Defined.

(** ** cacheMovie *)

Lemma cacheMovie_unbindable now (movieData : MovieData) (d : Db) :
  bindable (cols movieData) = false → cacheMovie now movieData d = d.
Proof. intros Hb. unfold cacheMovie, insertMovie. by rewrite Hb. Qed.

Lemma bindable_key (c : Columns) : bindable c = true → ∃ key, imdb_id c = Some key.
Proof.
  unfold bindable. destruct (imdb_id c) as [key|]; [by eexists|]. simpl. done.
Qed.

(** X4. cacheMovie is idempotent: writing the same record a second time, at
    any later moment, leaves the store exactly as the first write left it
    (the row keeps the timestamp of the first write). *)
Theorem cacheMovie_idempotent (now later : Z) (movieData : MovieData) (d : Db) :
  cacheMovie later movieData (cacheMovie now movieData d) = cacheMovie now movieData d.
Proof.
  destruct (bindable (cols movieData)) eqn:Hb.
  - destruct (bindable_key _ Hb) as [key Hk].
    destruct (cacheMovie now movieData d) as [m1 a1] eqn:H1.
    assert (Hm1 : m1 = movies_cache (cacheMovie now movieData d)) by (by rewrite H1).
    rewrite (cacheMovie_bindable now movieData d key Hb Hk) in Hm1.
    unfold cacheMovie, insertMovie. rewrite Hb, Hk. simpl.
    f_equal. rewrite Hm1, lookup_insert_eq. simpl. apply insert_insert_eq.
  - by rewrite !cacheMovie_unbindable.
Qed.

Lemma cacheMovie_frame_facts (now : Z) (movieData : MovieData) (d : Db) :
  ai_recommendations_cache (cacheMovie now movieData d) = ai_recommendations_cache d
  ∧ (∀ other, imdb_id (cols movieData) ≠ Some other →
       findById (cacheMovie now movieData d) other = findById d other)
  ∧ (∀ key, is_Some (findById d key) → is_Some (findById (cacheMovie now movieData d) key))
  ∧ (bindable (cols movieData) = false → cacheMovie now movieData d = d).
Proof.
  destruct (bindable (cols movieData)) eqn:Hb.
  - destruct (bindable_key _ Hb) as [key Hk].
    split; [|split; [|split]].
    + unfold cacheMovie, insertMovie. by rewrite Hb, Hk.
    + intros other Hne. unfold findById.
      rewrite (cacheMovie_bindable now movieData d key Hb Hk).
      apply lookup_insert_ne. congruence.
    + intros k Hsome. unfold findById in *.
      rewrite (cacheMovie_bindable now movieData d key Hb Hk).
      destruct (decide (key = k)) as [->|Hne].
      * rewrite lookup_insert_eq. eauto.
      * by rewrite lookup_insert_ne.
    + done.
  - rewrite cacheMovie_unbindable by done. done.
Qed.


(** ** getMovieDetails and the details route (movies.js) *)

Section DetailsFacts.

Variable provider : nat → Request → Outcome.
Variable OMDB_API_KEY : JsValue.

Lemma fetchOmdb_db params retries tmo (w : World) :
  db (fetchOmdb provider params retries tmo w).2 = db w.
Proof.
  destruct (attempts_shape provider retries 1 retries params tmo w) as (n & _ & _ & Hw);
    [lia|].
  unfold fetchOmdb. by rewrite Hw.
Qed.

Lemma getMovieDetails_sound_facts (imdbId : jsstring) (w : World) :
  db (getMovieDetails provider OMDB_API_KEY imdbId w).2 = db w
  ∧ ∀ movie, (getMovieDetails provider OMDB_API_KEY imdbId w).1 = Some movie →
      ∃ n data,
        provider n (mkRequest true (detailsParams OMDB_API_KEY imdbId) 5000) = Replied data
        ∧ Response data = Some (lit "True")
        ∧ movie = formatMovieData_movies data.
Proof.
  unfold getMovieDetails, fetchOmdb_default.
  pose proof (fetchOmdb_db (detailsParams OMDB_API_KEY imdbId) 3 5000 w) as Hdb.
  destruct (fetchOmdb provider (detailsParams OMDB_API_KEY imdbId) 3 5000 w)
    as [[[data|]|e] w'] eqn:Hf; simpl in Hdb.
  - case_bool_decide as Htrue; simpl; (split; [exact Hdb|]); [|done].
    intros movie [= <-].
    destruct (attempts_returned provider _ _ _ _ _ _ _ _ Hf) as [n Hn]. eauto.
  - simpl. split; [exact Hdb|done].
  - simpl. split; [exact Hdb|done].
Qed.

(** X6. getMovieDetails never writes to the store, and what it returns,
    when it returns a record, is the normalization of an answer the provider
    gave to its request and flagged [True]; a failed fetch and an answer not
    flagged [True] both give [null]. *)
Theorem getMovieDetails_sound (imdbId : jsstring) (w : World) :
  db (getMovieDetails provider OMDB_API_KEY imdbId w).2 = db w
  ∧ ∀ movie, (getMovieDetails provider OMDB_API_KEY imdbId w).1 = Some movie →
      ∃ n data,
        provider n (mkRequest true (detailsParams OMDB_API_KEY imdbId) 5000) = Replied data
        ∧ Response data = Some (lit "True")
        ∧ movie = formatMovieData_movies data.
Proof. intros. eapply getMovieDetails_sound_facts; eassumption. Qed.



End DetailsFacts.

(** ** The recommendation cache: round trip, bounds and purge *)

Lemma replyFromRow_response prompt explanation detailed created expires :
  prompt ≠ [] →
  replyFromRow (mkAiRow prompt (RawValue (responseOf explanation detailed prompt))
                  created expires)
  = mkCachedReply detailed (JStr prompt) false.
Proof.
  intros Hne. destruct prompt as [|c rest]; [done|].
  unfold replyFromRow, responseOf. simpl.
  unfold normalize, originalPromptOf, orElse. simpl.
  by destruct detailed.
Qed.

(** X9. Round trip through the cache. After a request on a cold cache has
    been answered by generating, a request within the next 24 hours whose
    prompt is the same after lower-casing and trimming is answered from the
    cache: with the recommendations that were generated, in the same order,
    without generating again and without any write. The reply names the
    prompt of the first request, and the explanation is not served again. *)
Theorem postAI_round_trip toLowerCase generate generate'
    (p1 p2 : jsstring) (now later now2 later2 : Z) (d d1 : Db) explanation detailed :
  accepted p1 → accepted p2 →
  trim (toLowerCase p1) = trim (toLowerCase p2) →
  ai_recommendations_cache d !! promptHash toLowerCase p1 = None →
  generate p1 d = (GenOk explanation detailed, d1) →
  ai_recommendations_cache d1 = ai_recommendations_cache d →
  (now2 < later + DAY)%Z →
  (postAI toLowerCase generate p1 now later d).1
  = ServedFromAi (responseOf explanation detailed p1)
  ∧ postAI toLowerCase generate' p2 now2 later2
      (postAI toLowerCase generate p1 now later d).2
    = (ServedFromCache (mkCachedReply detailed (JStr p1) false),
       (postAI toLowerCase generate p1 now later d).2).
Proof.
  intros Hacc1 Hacc2 Hnorm Hnone Hgen Hsame Hlive.
  assert (Hh : promptHash toLowerCase p2 = promptHash toLowerCase p1).
  { unfold promptHash. by rewrite Hnorm. }
  rewrite (postAI_cold toLowerCase generate p1 now later d d1 explanation detailed
             Hacc1 Hnone Hgen).
  split; [done|]. cbn [snd].
  assert (Hnone1 : ai_recommendations_cache d1 !! promptHash toLowerCase p1 = None)
    by (by rewrite Hsame).
  destruct (put_fresh later (promptHash toLowerCase p1) p1
              (RawValue (responseOf explanation detailed p1)) d1 Hnone1) as [Hrow _].
  rewrite <- (replyFromRow_response p1 explanation detailed later (Some (later + DAY)%Z))
    by apply Hacc1.
  apply (postAI_live toLowerCase generate' p2 now2 later2 _ (later + DAY)%Z).
  - exact Hacc2.
  - rewrite Hh. exact Hrow.
  - reflexivity.
  - exact Hlive.
Qed.

(** X10. The handler rejects a prompt exactly when it is empty or longer
    than 500 code units (a prompt of exactly 500 is accepted), and a rejected
    request reads and writes nothing. *)
Theorem postAI_rejects toLowerCase generate (prompt : jsstring) (now later : Z) (d : Db) :
  ((∃ error, (postAI toLowerCase generate prompt now later d).1 = BadRequest error)
     ↔ prompt = [] ∨ (500 < length prompt)%nat)
  ∧ (prompt = [] ∨ (500 < length prompt)%nat →
     (postAI toLowerCase generate prompt now later d).2 = d).
Proof.
  assert (Hrej : prompt = [] ∨ (500 < length prompt)%nat →
                 ∃ error, postAI toLowerCase generate prompt now later d
                          = (BadRequest error, d)).
  { intros Hbad. unfold postAI, strEqb. case_bool_decide as Hempty; [by eexists|].
    destruct Hbad as [->|Hlong]; [done|].
    apply Nat.ltb_lt in Hlong. rewrite Hlong. by eexists. }
  split; [split|].
  - intros [error Herr].
    destruct (decide (prompt = [])) as [|Hne]; [by left|].
    destruct (decide (500 < length prompt)%nat) as [|Hshort]; [by right|].
    exfalso. revert Herr. rewrite postAI_accepted by (split; [done|lia]).
    destruct (get d _ now); [|done].
    by destruct (generate prompt d) as [[]].
  - intros Hbad. destruct (Hrej Hbad) as [error ->]. by eexists.
  - intros Hbad. by destruct (Hrej Hbad) as [error ->].
Qed.

Lemma clearCache_lookup now (d : Db) h :
  ai_recommendations_cache (clearCache now d) !! h
  = match ai_recommendations_cache d !! h with
    | Some row => if expired now row then None else Some row
    | None => None
    end.
Proof.
  unfold clearCache. simpl.
  destruct (ai_recommendations_cache d !! h) as [row|] eqn:Hrow.
  - destruct (expired now row) eqn:He.
    + apply map_lookup_filter_None. right. intros row' Hrow'. simpl.
      rewrite Hrow in Hrow'. injection Hrow' as <-. by rewrite He.
    + apply map_lookup_filter_Some. split; [exact Hrow|]. exact He.
  - apply map_lookup_filter_None. by left.
Qed.

(** X11. Purging is invisible to readers and keeps the movie cache: at the
    time of the purge and at any later time, every hash reads the same
    after [DELETE /cache] as before it. *)
Theorem clearCache_invisible (now t : Z) (d : Db) (h : jsstring) :
  (now ≤ t)%Z →
  get (clearCache now d) h t = get d h t
  ∧ movies_cache (clearCache now d) = movies_cache d.
Proof.
  intros Hle. split; [|reflexivity]. unfold get, selectLive. rewrite clearCache_lookup.
  destruct (ai_recommendations_cache d !! h) as [row|]; [|done].
  destruct (expired now row) eqn:Hexp; [|done].
  unfold expired in Hexp. destruct (expires_at row) as [e|]; [|done].
  apply Z.leb_le in Hexp.
  assert ((t <? e)%Z = false) as -> by (apply Z.ltb_ge; lia). done.
Qed.

(** X12. The purge frees the hash of an expired row: after [DELETE /cache]
    a write for that hash succeeds, and the new answer is then served until
    it expires in its turn. *)
Theorem clearCache_then_put (now later t e : Z) (d : Db) (h prompt : jsstring)
    (payload : Raw) (row : AiRow) :
  ai_recommendations_cache d !! h = Some row →
  expires_at row = Some e → (e ≤ now)%Z →
  (t < later + DAY)%Z →
  (put later h prompt payload (clearCache now d)).2 = false
  ∧ get (put later h prompt payload (clearCache now d)).1 h t
    = Hit (replyFromRow (mkAiRow prompt payload later (Some (later + DAY)%Z))).
Proof.
  intros Hrow He Hle Hlive.
  pose proof (clearCache_frees now h d row e Hrow He Hle) as Hfree.
  destruct (put_fresh later h prompt payload (clearCache now d) Hfree) as [Hnew Hlog].
  split; [exact Hlog|].
  by apply (get_live _ _ _ (later + DAY)%Z).
Qed.

(** ** The extractor: what every returned title satisfies *)

Lemma includes_elem (l : list jsstring) (x : jsstring) : includes l x = true ↔ x ∈ l.
Proof.
  unfold includes, strEqb. induction l as [|y l IH]; simpl.
  - split; [done|]. by intros ?%not_elem_of_nil.
  - rewrite orb_true_iff, IH, bool_decide_eq_true, elem_of_cons. done.
Qed.

Lemma addMatch_wellFormed titles match1 :
  wellFormed titles → wellFormed (addMatch titles match1).
Proof.
  intros [Hp Hd]. unfold addMatch.
  destruct (plausible _) eqn:Hpl; simpl; [|done].
  destruct (includes titles _) eqn:Hin; simpl; [done|].
  split.
  - apply Forall_app. split; [done|]. by constructor.
  - apply NoDup_app. split; [done|]. split.
    + intros x Hx Hx'. apply list_elem_of_singleton in Hx'. subst x.
      apply includes_elem in Hx. congruence.
    + apply NoDup_singleton.
Qed.

Lemma foldl_addMatch_wellFormed caps titles :
  wellFormed titles → wellFormed (foldl addMatch titles caps).
Proof.
  revert titles. induction caps as [|c caps IH]; intros titles Hw; simpl; [done|].
  apply IH. by apply addMatch_wellFormed.
Qed.

Lemma runPatterns_wellFormed ps text titles :
  wellFormed titles → wellFormed (runPatterns ps text titles).
Proof.
  revert titles. induction ps as [|pat ps IH]; intros titles Hw; cbn [runPatterns]; [done|].
  pose proof (foldl_addMatch_wellFormed (matchAll1 pat text) titles Hw) as Hw'.
  destruct (5 <=? length (foldl addMatch titles (matchAll1 pat text)))%nat; [done|].
  by apply IH.
Qed.

Lemma takeLines_plausible lines titles :
  Forall (λ t, plausible t = true) titles →
  Forall (λ t, plausible t = true) (takeLines lines titles).
Proof.
  revert titles. induction lines as [|line rest IH]; intros titles Hp; cbn [takeLines];
    [done|].
  assert (Hp' : Forall (λ t, plausible t = true)
                  (if plausible (cleanLine line) then titles ++ [cleanLine line] else titles)).
  { destruct (plausible (cleanLine line)) eqn:Hpl; [|done].
    apply Forall_app. split; [done|]. by constructor. }
  destruct (5 <=? length (if plausible (cleanLine line)
                          then titles ++ [cleanLine line] else titles))%nat; [done|].
  by apply IH.
Qed.

Lemma plausible_bounds t : plausible t = true ↔ (3 ≤ length t ≤ 99)%nat.
Proof.
  unfold plausible. rewrite andb_true_iff, !Nat.ltb_lt. lia.
Qed.

Lemma extract_titles_bounded_facts (text : jsstring) :
  (length (extractMovieTitlesFromText text) ≤ 5)%nat
  ∧ Forall (λ t, (3 ≤ length t ≤ 99)%nat) (extractMovieTitlesFromText text)
  ∧ NoDup (patternTitles text)
  ∧ (patternTitles text ≠ [] →
     extractMovieTitlesFromText text = take 5 (patternTitles text)
     ∧ NoDup (extractMovieTitlesFromText text)).
Proof.
  assert (Hw : wellFormed (patternTitles text)).
  { apply runPatterns_wellFormed. split; constructor. }
  assert (Hl : Forall (λ t, plausible t = true) (lineTitles text)).
  { apply takeLines_plausible. constructor. }
  destruct Hw as [Hp Hd].
  split; [|split; [|split]].
  - unfold extractMovieTitlesFromText. rewrite length_take. lia.
  - unfold extractMovieTitlesFromText.
    apply Forall_take. destruct (patternTitles text);
      (eapply Forall_impl; [eassumption|]); intros t Ht; by apply plausible_bounds.
  - exact Hd.
  - intros Hne. unfold extractMovieTitlesFromText.
    destruct (patternTitles text) as [|t rest] eqn:Hpt; [done|].
    split; [done|].
    rewrite <- (take_drop 5 (t :: rest)) in Hd. by apply NoDup_app in Hd as [Hd _].
Qed.

(** X13. The extractor returns at most five titles, each of 3 to 99 code
    units, whatever the text; when a pattern found a title the result is
    the first five titles the patterns gave and holds no title twice. *)
Theorem extract_titles_bounded (text : jsstring) :
  (length (extractMovieTitlesFromText text) ≤ 5)%nat
  ∧ Forall (λ t, (3 ≤ length t ≤ 99)%nat) (extractMovieTitlesFromText text)
  ∧ NoDup (patternTitles text)
  ∧ (patternTitles text ≠ [] →
     extractMovieTitlesFromText text = take 5 (patternTitles text)
     ∧ NoDup (extractMovieTitlesFromText text)).
Proof. intros. eapply extract_titles_bounded_facts; eassumption. Qed.

Lemma extract_titles_bounded_witness :
  extractMovieTitlesFromText picks = take 5 (patternTitles picks)
  ∧ NoDup (extractMovieTitlesFromText picks).
Proof.
  destruct (extract_titles_bounded picks) as (_ & _ & _ & Hpat).
  apply Hpat. vm_compute. discriminate.
Defined.

(** *** The characters of a cleaned title *)

Lemma scan_class_start p skip bef aft :
  Forall (λ mt, (length bef ≤ mstart mt)%nat) (scan (RCls p) skip bef aft).
Proof.
  revert skip bef. induction aft as [|c t IH]; intros skip bef; simpl.
  - destruct skip; constructor.
  - assert (Hrest : ∀ k, Forall (λ mt, (length bef ≤ mstart mt)%nat)
                           (scan (RCls p) k (c :: bef) t)).
    { intros k. eapply Forall_impl; [apply IH|]. simpl. intros mt Hm. lia. }
    destruct skip; [|apply Hrest].
    unfold matchAt. simpl. destruct (p c); simpl; [|apply Hrest].
    constructor; [simpl; lia|apply Hrest].
Qed.

Lemma removeRanges_skip ms pos c (t : jsstring) :
  Forall (λ mt, (S pos ≤ mstart mt)%nat) ms →
  removeRanges ms pos (c :: t) = c :: removeRanges ms (S pos) t.
Proof.
  destruct ms as [|mt ms]; [done|]. intros Hall.
  apply Forall_cons in Hall as [Hmt _]. simpl.
  replace (mstart mt - pos)%nat with (S (mstart mt - S pos)) by lia.
  reflexivity.
Qed.

(** Removing every match of a one-character class keeps exactly the
    characters outside the class. *)
Lemma removeAll_class p (bef aft : list N) :
  removeRanges (scan (RCls p) 0 bef aft) (length bef) aft
  = List.filter (λ c, negb (p c)) aft.
Proof.
  revert bef. induction aft as [|c t IH]; intros bef; simpl; [done|].
  unfold matchAt. simpl. destruct (p c) eqn:Hp; simpl.
  - rewrite Nat.sub_diag. simpl.
    replace (S (length bef) - length bef)%nat with 1%nat by lia. simpl.
    rewrite Nat.add_1_r. apply (IH (c :: bef)).
  - rewrite removeRanges_skip.
    + f_equal. apply (IH (c :: bef)).
    + apply (scan_class_start p 0 (c :: bef) t).
Qed.

Lemma trimStart_suffix s : ∃ pre, s = pre ++ trimStart s.
Proof.
  induction s as [|c t [pre IH]]; simpl; [by exists []|].
  destruct (isSpace c); [|by exists []].
  exists (c :: pre). simpl. by f_equal.
Qed.

Lemma trimStart_head s c t : trimStart s = c :: t → isSpace c = false.
Proof.
  induction s as [|x s IH]; simpl; [done|].
  destruct (isSpace x) eqn:Hx; [exact IH|]. by intros [= <- _].
Qed.

Lemma trim_Forall (P : N → Prop) s : Forall P s → Forall P (trim s).
Proof.
  intros Hs. unfold trim.
  destruct (trimStart_suffix s) as [pre Hpre].
  assert (H1 : Forall P (trimStart s)).
  { rewrite Hpre in Hs. by apply Forall_app in Hs as [_ ?]. }
  destruct (trimStart_suffix (rev (trimStart s))) as [pre2 Hpre2].
  assert (H2 : Forall P (trimStart (rev (trimStart s)))).
  { apply Forall_rev in H1. rewrite Hpre2 in H1. by apply Forall_app in H1 as [_ ?]. }
  by apply Forall_rev.
Qed.

(** [trim] leaves no white space at either end. *)
Lemma trim_trimmed s : trimmed (trim s).
Proof.
  unfold trimmed, trim. split.
  - intros c t Heq.
    destruct (trimStart_suffix (rev (trimStart s))) as [pre Hpre].
    assert (Hs : trimStart s = rev (trimStart (rev (trimStart s))) ++ rev pre).
    { rewrite <- rev_app_distr, <- Hpre. by rewrite rev_involutive. }
    rewrite Heq in Hs. simpl in Hs. exact (trimStart_head s c _ Hs).
  - intros c t. rewrite rev_involutive. apply trimStart_head.
Qed.

Lemma cleanTitle_kept match1 :
  Forall (λ c, keptChar c = true) (cleanTitle match1) ∧ trimmed (cleanTitle match1).
Proof.
  unfold cleanTitle. split; [|apply trim_trimmed].
  apply trim_Forall. unfold removeAll, matches, reSpecial.
  rewrite (removeAll_class _ [] _).
  apply Forall_forall. intros c Hc. apply list_elem_of_In, filter_In in Hc as [_ Hc].
  unfold notCls in Hc. rewrite negb_involutive in Hc. exact Hc.
Qed.

Lemma addMatch_kept (P : jsstring → Prop) titles match1 :
  (∀ m, P (cleanTitle m)) → Forall P titles → Forall P (addMatch titles match1).
Proof.
  intros HP Ht. unfold addMatch. destruct (_ && _); [|done].
  apply Forall_app. split; [done|]. constructor; [apply HP|constructor].
Qed.

Lemma runPatterns_kept (P : jsstring → Prop) ps text titles :
  (∀ m, P (cleanTitle m)) → Forall P titles → Forall P (runPatterns ps text titles).
Proof.
  intros HP. revert titles.
  induction ps as [|pat ps IH]; intros titles Ht; cbn [runPatterns]; [done|].
  assert (Hf : ∀ caps l, Forall P l → Forall P (foldl addMatch l caps)).
  { induction caps as [|c caps IHc]; intros l Hl; simpl; [done|].
    apply IHc. by apply addMatch_kept. }
  destruct (5 <=? length (foldl addMatch titles (matchAll1 pat text)))%nat;
    [by apply Hf|].
  apply IH. by apply Hf.
Qed.

(** X14. Every title the patterns give has been cleaned: it holds only
    word characters, white space and the marks [- : ! ? & . ,] (quotes,
    brackets and any other character are gone), and it neither begins nor
    ends with white space. *)
Theorem patternTitles_clean (text : jsstring) :
  Forall (λ t, Forall (λ c, keptChar c = true) t ∧ trimmed t) (patternTitles text).
Proof.
  apply runPatterns_kept; [|constructor]. apply cleanTitle_kept.
Qed.

(** ** Generation: what a success carries *)

Lemma orElse_truthy a b : truthy b = true → truthy (orElse a b) = true.
Proof. intros Hb. unfold orElse. by destruct (truthy a) eqn:Ha. Qed.

Lemma toCandidate_truthy m c :
  toCandidate m = inr c → truthy (c_title c) = true ∧ truthy (c_reason c) = true.
Proof.
  unfold toCandidate.
  destruct (getProp m (lit "title")) as [|t]; [done|]. cbn [bind].
  destruct (getProp m (lit "year")) as [|y]; [done|]. cbn [bind].
  destruct (getProp m (lit "reason")) as [|r]; [done|]. cbn [bind].
  intros [= <-]. simpl. split; by apply orElse_truthy.
Qed.

Lemma mapE_Forall2 {A B : Type} (f : A → Exn + B) l ys :
  mapE f l = inr ys → Forall2 (λ x y, f x = inr y) l ys.
Proof.
  revert ys. induction l as [|x l IH]; intros ys; cbn [mapE].
  - intros [= <-]. constructor.
  - destruct (f x) as [|y] eqn:Hx; [done|]. cbn [bind].
    destruct (mapE f l) as [|ys'] eqn:Hl; [done|]. cbn [bind].
    intros [= <-]. constructor; [done|]. by apply IH.
Qed.

Lemma validate_Success v r :
  validate v = inr r →
  ∃ items x cs,
    moviesOf v = Some items ∧ items ≠ []
    ∧ r = Success (orElse x (JStr (lit "AI-generated recommendations"))) cs
    ∧ Forall2 (λ m c, toCandidate m = inr c) items cs.
Proof.
  unfold validate, moviesOf.
  destruct (getProp v (lit "movies")) as [|movies]; [done|]. cbn [bind].
  destruct movies as [| | | | |items|]; try done.
  destruct items as [|m rest]; [done|]. cbn [length Nat.eqb].
  destruct (getProp v (lit "explanation")) as [|x]; [done|]. cbn [bind].
  destruct (mapE toCandidate (m :: rest)) as [|cs] eqn:Hcs; [done|]. cbn [bind].
  intros [= <-]. exists (m :: rest), x, cs.
  split; [done|]. split; [done|]. split; [done|]. by apply mapE_Forall2.
Qed.

Lemma fromContent_Success aiContent explanation cs :
  fromContent aiContent = Success explanation cs →
  ∃ v, parseResponse aiContent = inr v ∧ validate v = inr (Success explanation cs).
Proof.
  unfold fromContent.
  destruct (parseResponse aiContent) as [e|v]; cbn [bind]; [by destruct e|].
  destruct (validate v) as [e|r] eqn:Hv; [by destruct e|].
  intros ->. eauto.
Qed.

(** X15. A successful generation always carries something to show: at least
    one candidate, an explanation that is truthy, and for every candidate a
    truthy title and a truthy rationale (the defaults [Unknown Title] and
    [Recommended by AI] stand in for what the reply left out). *)
Theorem generation_success_is_usable (aiContent : jsstring) explanation cs :
  fromContent aiContent = Success explanation cs →
  cs ≠ []
  ∧ truthy explanation = true
  ∧ Forall (λ c, truthy (c_title c) = true ∧ truthy (c_reason c) = true) cs.
Proof.
  intros Hs. destruct (fromContent_Success _ _ _ Hs) as (v & _ & Hv).
  destruct (validate_Success v _ Hv) as (items & x & cs' & _ & Hne & [= -> ->] & Hall).
  split; [|split].
  - intros ->. apply Forall2_nil_inv_r in Hall. done.
  - by apply orElse_truthy.
  - clear -Hall. induction Hall as [|m c items cs Hm _ IH]; constructor; [|exact IH].
    by apply (toCandidate_truthy m).
Qed.

Lemma toCandidate_fromTitle (t : jsstring) :
  t ≠ [] →
  toCandidate (JObj [ (lit "title", JStr t); (lit "year", JNull);
                      (lit "reason", JStr (lit "Recommended by AI")) ])
  = inr (fromTitle t).
Proof. intros Hne. destruct t; [done|]. reflexivity. Qed.

Lemma mapE_fromTitle (titles : list jsstring) :
  Forall (λ t, t ≠ []) titles →
  mapE toCandidate
    ((λ t, JObj [ (lit "title", JStr t); (lit "year", JNull);
                  (lit "reason", JStr (lit "Recommended by AI")) ]) <$> titles)
  = inr (fromTitle <$> titles).
Proof.
  induction 1 as [|t rest Ht _ IH]; [done|].
  rewrite !fmap_cons. cbn [mapE]. rewrite (toCandidate_fromTitle t Ht), IH. reflexivity.
Qed.

(** X16. When the reply is not JSON but titles can be extracted from it, the
    generation succeeds with exactly the extracted titles, in their order:
    one candidate per title, with no year and the rationale [Recommended by
    AI], under the fixed explanation; so at most five candidates. *)
Theorem generation_from_text (aiContent : jsstring) :
  JSON_parse aiContent = None →
  extractMovieTitlesFromText aiContent ≠ [] →
  fromContent aiContent
  = Success (JStr (lit "AI-generated recommendations based on your request."))
      (fromTitle <$> extractMovieTitlesFromText aiContent)
  ∧ (length (fromTitle <$> extractMovieTitlesFromText aiContent) ≤ 5)%nat.
Proof.
  intros Hp Hne.
  destruct (extract_titles_bounded_facts aiContent) as (Hlen & Hpl & _).
  split; [|by rewrite length_fmap].
  unfold fromContent, parseResponse. rewrite Hp.
  assert (Hnonempty : Forall (λ t, t ≠ []) (extractMovieTitlesFromText aiContent)).
  { eapply Forall_impl; [exact Hpl|]. intros t Ht ->. simpl in Ht. lia. }
  destruct (extractMovieTitlesFromText aiContent) as [|t rest] eqn:Hex; [done|].
  cbn [length Nat.eqb bind]. unfold validate, fallbackResponse, getProp.
  rewrite ownProp_fallback_movies. cbn [from_option id bind].
  rewrite length_fmap. cbn [length Nat.eqb].
  rewrite ownProp_fallback_explanation. cbn [from_option id bind].
  rewrite (mapE_fromTitle (t :: rest) Hnonempty). reflexivity.
Qed.

Lemma generation_from_text_witness :
  fromContent picks
  = Success (JStr (lit "AI-generated recommendations based on your request."))
      (fromTitle <$> extractMovieTitlesFromText picks)
  ∧ (length (fromTitle <$> extractMovieTitlesFromText picks) ≤ 5)%nat.
Proof.
  apply generation_from_text.
  - vm_compute. reflexivity.
  - vm_compute. discriminate.
Defined.

(** X17. When the reply is JSON, every entry of its array [movies] becomes
    a candidate: the result has as many candidates as the array has entries,
    also when that is more than five, and the text is not searched. *)
Theorem generation_from_json (aiContent : jsstring) (v : JsValue) explanation cs :
  JSON_parse aiContent = Some v →
  fromContent aiContent = Success explanation cs →
  ∃ items, moviesOf v = Some items
           ∧ length cs = length items
           ∧ Forall2 (λ m c, toCandidate m = inr c) items cs.
Proof.
  intros Hp Hs. destruct (fromContent_Success _ _ _ Hs) as (v' & Hv' & Hv).
  unfold parseResponse in Hv'. rewrite Hp in Hv'. injection Hv' as <-.
  destruct (validate_Success v _ Hv) as (items & x & cs' & Hm & _ & [= _ <-] & Hall).
  exists items. split; [exact Hm|]. split; [|exact Hall].
  symmetry. exact (Forall2_length _ items cs Hall).
Qed.

Lemma generation_success_is_usable_witness :
  candidatesOf (fromContent picks) ≠ []
  ∧ truthy (explanationOf (fromContent picks)) = true
  ∧ Forall (λ c, truthy (c_title c) = true ∧ truthy (c_reason c) = true)
      (candidatesOf (fromContent picks)).
Proof.
  apply (generation_success_is_usable picks). vm_compute. reflexivity.
Defined.

Lemma generation_from_json_witness :
  ∃ items, moviesOf (default JNull (JSON_parse sixMovies)) = Some items
           ∧ length (candidatesOf (fromContent sixMovies)) = length items
           ∧ Forall2 (λ m c, toCandidate m = inr c) items
               (candidatesOf (fromContent sixMovies)).
Proof.
  apply (generation_from_json sixMovies _ (explanationOf (fromContent sixMovies))).
  - vm_compute. reflexivity.
  - vm_compute. reflexivity.
Defined.

(** The six entries all come through. *)
Example six_candidates : length (candidatesOf (fromContent sixMovies)) = 6%nat.
Proof. vm_compute. reflexivity. Qed.

(** ** Reconciliation: order, footprint and caching *)

Section ReconcileMore.

Variable provider : nat → Request → Outcome.
Variable OMDB_API_KEY : JsValue.
Variable titleLike : JsValue → jsstring → bool.

Local Abbreviation run := (getMovieDetailsForRecommendations provider OMDB_API_KEY titleLike).
Local Abbreviation step := (detailsFor provider OMDB_API_KEY titleLike).

Lemma step_reason now movieData (w : World) :
  reasonOf (step now movieData w).1 = c_reason movieData.
Proof.
  unfold detailsFor.
  destruct (selectByTitle _ _ _); [done|].
  destruct (negb (truthy OMDB_API_KEY)); [done|].
  destruct (provider _ _) as [e|data]; [done|].
  by case_bool_decide.
Qed.

(** X18. The result follows the model's order and keeps its rationales:
    the i-th item carries the rationale of the i-th candidate, however each
    candidate was resolved. *)
Theorem reconciliation_keeps_order now (movieTitles : list Candidate) (w : World) :
  reasonOf <$> (run now movieTitles w).1 = c_reason <$> movieTitles.
Proof.
  revert w. induction movieTitles as [|movieData rest IH]; intros w; [done|].
  rewrite run_cons. simpl. by rewrite step_reason, IH.
Qed.

Lemma step_footprint now movieData (w : World) :
  stepFootprint w (step now movieData w).2.
Proof.
  assert (Hnone : stepFootprint w w).
  { split; [|done]. exists []. rewrite app_nil_r. split; [done|]. split; [simpl; lia|constructor]. }
  assert (Hone : stepFootprint w (send (omdbRequest OMDB_API_KEY movieData) w)).
  { split; [|done]. eexists. split; [reflexivity|]. split; [simpl; lia|].
    constructor; [done|constructor]. }
  unfold detailsFor.
  destruct (selectByTitle _ _ _); [exact Hnone|].
  destruct (negb (truthy OMDB_API_KEY)); [exact Hnone|].
  destruct (provider _ _) as [e|data]; [exact Hone|].
  case_bool_decide; [|exact Hone]. simpl.
  destruct Hone as (Hreq & Hsl & _ & _).
  split; [exact Hreq|]. split; [exact Hsl|]. simpl.
  match goal with |- context [cacheMovie now ?md (db w)] =>
    destruct (cacheMovie_frame_facts now md (db w)) as (Hai & _ & Hkeep & _) end.
  split; [exact Hai|exact Hkeep].
Qed.

(** X19. Reconciliation sends at most one request per candidate, each over
    plain HTTP with a time-out of 10 seconds, and never pauses: a failed
    request is not repeated. It never touches the recommendation cache and
    never removes a row of the movie cache. *)
Theorem reconciliation_footprint now (movieTitles : list Candidate) (w : World) :
  (∃ reqs, requests (run now movieTitles w).2 = requests w ++ reqs
           ∧ (length reqs ≤ length movieTitles)%nat
           ∧ Forall (λ r, https r = false ∧ timeout r = 10000) reqs)
  ∧ slept (run now movieTitles w).2 = slept w
  ∧ ai_recommendations_cache (db (run now movieTitles w).2)
    = ai_recommendations_cache (db w)
  ∧ (∀ key, is_Some (findById (db w) key) →
            is_Some (findById (db (run now movieTitles w).2) key)).
Proof.
  revert w. induction movieTitles as [|movieData rest IH]; intros w.
  - split; [|done]. exists []. rewrite app_nil_r. split; [done|]. split; [simpl; lia|constructor].
  - rewrite run_cons. cbn [snd].
    destruct (step_footprint now movieData w) as ((r1 & Hr1 & Hl1 & Hf1) & Hs1 & Ha1 & Hk1).
    destruct (IH (step now movieData w).2) as ((r2 & Hr2 & Hl2 & Hf2) & Hs2 & Ha2 & Hk2).
    split; [|split; [|split]].
    + exists (r1 ++ r2). rewrite Hr2, Hr1, <- app_assoc. split; [done|].
      split; [rewrite length_app; simpl; lia|]. by apply Forall_app.
    + by rewrite Hs2.
    + by rewrite Ha2.
    + intros key Hkey. by apply Hk2, Hk1.
Qed.

Lemma step_offline now movieData (w : World) :
  truthy OMDB_API_KEY = false →
  (step now movieData w).2 = w ∧ offline (step now movieData w).1.
Proof.
  intros Hkey. unfold detailsFor.
  destruct (selectByTitle _ _ _); [done|]. rewrite Hkey. done.
Qed.

(** X20. Without a provider key reconciliation is offline: it sends no
    request and writes nothing (the state is left exactly as it was), and
    every item is either a cached row or a placeholder without an error
    marker. *)
Theorem reconciliation_without_key now (movieTitles : list Candidate) (w : World) :
  truthy OMDB_API_KEY = false →
  (run now movieTitles w).2 = w
  ∧ Forall offline (run now movieTitles w).1.
Proof.
  intros Hkey. revert w. induction movieTitles as [|movieData rest IH]; intros w.
  - split; [done|constructor].
  - rewrite run_cons. cbn [fst snd].
    destruct (step_offline now movieData w Hkey) as [Hw Hitem]. rewrite Hw.
    destruct (IH w) as [Hw' Hitems]. split; [exact Hw'|]. by constructor.
Qed.

End ReconcileMore.

Lemma reconciliation_without_key_witness :
  (getMovieDetailsForRecommendations reliable JUndefined noMatch 0
     [candidate "Inception" "dreams"; candidate "Arrival" "aliens"] emptyWorld).2
  = emptyWorld
  ∧ Forall offline
      (getMovieDetailsForRecommendations reliable JUndefined noMatch 0
         [candidate "Inception" "dreams"; candidate "Arrival" "aliens"] emptyWorld).1.
Proof. apply reconciliation_without_key. reflexivity. Defined.

(** ** Ordered queries *)

Lemma fracLt_scale (a b : Z * Z) (e : Z) :
  (e ≤ a.2)%Z → (e ≤ b.2)%Z →
  fracLt a b = (a.1 * 10 ^ (a.2 - e) <? b.1 * 10 ^ (b.2 - e))%Z.
Proof.
  intros Ha Hb. unfold fracLt. set (m := Z.min a.2 b.2).
  assert (Hm : (e ≤ m ∧ m ≤ a.2 ∧ m ≤ b.2)%Z) by (unfold m; lia).
  replace (a.2 - e)%Z with ((a.2 - m) + (m - e))%Z by lia.
  replace (b.2 - e)%Z with ((b.2 - m) + (m - e))%Z by lia.
  rewrite !Z.pow_add_r by lia. rewrite !Z.mul_assoc.
  assert (Hpos : (0 < 10 ^ (m - e))%Z) by (apply Z.pow_pos_nonneg; lia).
  apply eq_true_iff_eq. rewrite !Z.ltb_lt.
  apply Z.mul_lt_mono_pos_r. exact Hpos.
Qed.

(** The ratings of three rows brought to one denominator. *)
Lemma fracLt_common (a b c : Z * Z) :
  ∃ x y z : Z,
    fracLt a b = (x <? y)%Z ∧ fracLt b a = (y <? x)%Z
    ∧ fracLt b c = (y <? z)%Z ∧ fracLt c b = (z <? y)%Z
    ∧ fracLt a c = (x <? z)%Z ∧ fracLt c a = (z <? x)%Z.
Proof.
  set (e := Z.min a.2 (Z.min b.2 c.2)).
  exists (a.1 * 10 ^ (a.2 - e))%Z, (b.1 * 10 ^ (b.2 - e))%Z, (c.1 * 10 ^ (c.2 - e))%Z.
  repeat split; apply fracLt_scale; unfold e; lia.
Qed.

Ltac by_ratings a b c :=
  unfold ratedAbove;
  destruct (ratingOf a) as [?x|], (ratingOf b) as [?y|], (ratingOf c) as [?z|];
  try done;
  match goal with
  | x : (Z * Z)%type, y : (Z * Z)%type, z : (Z * Z)%type |- _ =>
      destruct (fracLt_common x y z) as (?&?&?&H1&H2&H3&H4&H5&H6);
      rewrite ?H1, ?H2, ?H3, ?H4, ?H5, ?H6;
      rewrite ?Z.ltb_lt, ?Z.ltb_ge; lia
  | x : (Z * Z)%type, y : (Z * Z)%type |- _ =>
      destruct (fracLt_common x y y) as (?&?&?&H1&H2&_);
      rewrite ?H1, ?H2; rewrite ?Z.ltb_lt, ?Z.ltb_ge; lia
  | _ => idtac
  end.

Lemma ratedAbove_asym a b : ratedAbove a b = true → ratedAbove b a = false.
Proof. by_ratings a b b. Qed.

Lemma ratedAbove_trans a b c :
  ratedAbove a b = true → ratedAbove b c = true → ratedAbove a c = true.
Proof. by_ratings a b c. Qed.

Lemma ratedAbove_negtrans a b c :
  ratedAbove b a = false → ratedAbove c b = false → ratedAbove c a = false.
Proof. by_ratings a b c. Qed.

Lemma ratedAbove_left a b c :
  ratedAbove a b = true → ratedAbove c b = false → ratedAbove a c = true.
Proof. by_ratings a b c. Qed.

Lemma ratedAbove_right a b c :
  ratedAbove b a = false → ratedAbove b c = true → ratedAbove a c = true.
Proof. by_ratings a b c. Qed.

Section SortFacts.

Context {A : Type} (before : A → A → bool).

Hypothesis before_asym : ∀ a b, before a b = true → before b a = false.
Hypothesis before_trans : ∀ a b c, before a b = true → before b c = true → before a c = true.
Hypothesis before_negtrans :
  ∀ a b c, before b a = false → before c b = false → before c a = false.

Local Abbreviation ok := (λ a b, before b a = false).

Lemma insertBy_perm x l : insertBy before x l ≡ₚ x :: l.
Proof.
  induction l as [|y l IH]; simpl; [done|].
  destruct (before y x); [|done]. rewrite IH. apply Permutation_swap.
Qed.

Lemma sortBy_perm l : sortBy before l ≡ₚ l.
Proof.
  induction l as [|x l IH]; simpl; [done|].
  unfold sortBy in *. simpl. by rewrite insertBy_perm, IH.
Qed.

Lemma insertBy_sorted x l :
  StronglySorted ok l → StronglySorted ok (insertBy before x l).
Proof.
  induction 1 as [|y l Hl IH Hy]; simpl.
  - repeat constructor.
  - destruct (before y x) eqn:Hyx.
    + constructor; [exact IH|].
      rewrite insertBy_perm. constructor; [|exact Hy]. by apply before_asym.
    + constructor; [by constructor|]. constructor; [exact Hyx|].
      eapply Forall_impl; [exact Hy|]. simpl. intros z Hz.
      by apply (before_negtrans x y z).
Qed.

Lemma sortBy_sorted l : StronglySorted ok (sortBy before l).
Proof.
  induction l as [|x l IH]; [constructor|]. by apply insertBy_sorted.
Qed.

Lemma StronglySorted_take (R : A → A → Prop) n l :
  StronglySorted R l → StronglySorted R (take n l).
Proof.
  intros Hs. rewrite <- (take_drop n l) in Hs. by apply StronglySorted_app_1_l in Hs.
Qed.

Lemma foldl_pick a l :
  foldl (pick before) (Some a) l
  = Some (match foldl (pick before) None l with
          | None => a
          | Some b => if before b a then b else a
          end).
Proof.
  revert a. induction l as [|y l IH]; intros a; [done|].
  cbn [foldl].
  change (pick before None y) with (Some y).
  change (pick before (Some a) y) with (if before y a then Some y else Some a).
  rewrite (IH y).
  destruct (before y a) eqn:Hya; rewrite IH;
    (destruct (foldl (pick before) None l) as [b|]; [|by rewrite ?Hya]).
  - destruct (before b y) eqn:Hby.
    + by rewrite (before_trans b y a).
    + by rewrite Hya.
  - destruct (before b y) eqn:Hby; [done|]. rewrite Hya.
    by rewrite (before_negtrans a y b).
Qed.

Lemma head_sortBy l : head (sortBy before l) = foldl (pick before) None l.
Proof.
  induction l as [|x l IH]; [done|].
  change (sortBy before (x :: l)) with (insertBy before x (sortBy before l)).
  cbn [foldl]. change (pick before None x) with (Some x).
  rewrite foldl_pick, <- IH.
  destruct (sortBy before l) as [|y s]; [done|]. simpl.
  by destruct (before y x).
Qed.

End SortFacts.

Lemma trendsBefore_asym a b : trendsBefore a b = true → trendsBefore b a = false.
Proof.
  unfold trendsBefore.
  destruct (ratedAbove a b) eqn:Hab, (ratedAbove b a) eqn:Hba; simpl; try done.
  - by rewrite (ratedAbove_asym a b) in Hba.
  - rewrite Z.ltb_lt, Z.ltb_ge. lia.
Qed.

Lemma trendsBefore_negtrans a b c :
  trendsBefore b a = false → trendsBefore c b = false → trendsBefore c a = false.
Proof.
  unfold trendsBefore.
  rewrite !orb_false_iff, !andb_false_iff, !negb_false_iff, !Z.ltb_ge.
  intros [Hba H1] [Hcb H2].
  split; [by apply (ratedAbove_negtrans a b c)|].
  destruct H1 as [H1|H1].
  - left. by apply (ratedAbove_left a b c).
  - destruct H2 as [H2|H2].
    + left. by apply (ratedAbove_right a b c).
    + right. lia.
Qed.

Lemma trendsBefore_trans a b c :
  trendsBefore a b = true → trendsBefore b c = true → trendsBefore a c = true.
Proof.
  intros Hab Hbc.
  destruct (trendsBefore a c) eqn:Hac; [done|].
  pose proof (trendsBefore_asym b c Hbc) as Hcb.
  by rewrite (trendsBefore_negtrans b c a Hcb Hac) in Hab.
Qed.

Lemma elem_of_rowsOf (d : Db) (r : MovieRow) :
  r ∈ rowsOf d ↔ ∃ key, findById d key = Some r.
Proof.
  unfold rowsOf, findById. rewrite list_elem_of_fmap. split.
  - intros ([k r'] & -> & Hin). exists k. by apply elem_of_map_to_list.
  - intros [k Hk]. exists (k, r). split; [done|]. by apply elem_of_map_to_list.
Qed.

Lemma elem_of_filter_list {A : Type} (f : A → bool) (l : list A) (x : A) :
  x ∈ List.filter f l ↔ f x = true ∧ x ∈ l.
Proof. rewrite !list_elem_of_In, filter_In. tauto. Qed.

Section QueryFacts.

Variable titleLike : JsValue → jsstring → bool.

Lemma selectByTitle_head (d : Db) (t : JsValue) :
  selectByTitle titleLike d t
  = head (sortBy ratedAbove (List.filter (titleMatches titleLike t) (rowsOf d))).
Proof.
  rewrite (head_sortBy ratedAbove ratedAbove_trans ratedAbove_negtrans). reflexivity.
Qed.


Lemma selectByTitle_best_facts (d : Db) (t : JsValue) :
  (∀ row, selectByTitle titleLike d t = Some row →
     titleMatches titleLike t row = true
     ∧ (∃ key, findById d key = Some row)
     ∧ ∀ other key, findById d key = Some other →
         titleMatches titleLike t other = true → ratedAbove other row = false)
  ∧ (∀ other key, findById d key = Some other →
       titleMatches titleLike t other = true →
       is_Some (selectByTitle titleLike d t)).
Proof.
  rewrite selectByTitle_head.
  set (found := List.filter (titleMatches titleLike t) (rowsOf d)).
  pose proof (sortBy_perm ratedAbove found) as Hperm.
  pose proof (sortBy_sorted ratedAbove ratedAbove_asym ratedAbove_negtrans found) as Hsorted.
  assert (Hfound : ∀ r, r ∈ found ↔ titleMatches titleLike t r = true
                                     ∧ ∃ key, findById d key = Some r).
  { intros r. unfold found. by rewrite elem_of_filter_list, elem_of_rowsOf. }
  split.
  - intros row Hhead.
    destruct (sortBy ratedAbove found) as [|r rest] eqn:Hs; [done|].
    injection Hhead as ->.
    assert (Hin : row ∈ found) by (rewrite <- Hperm; constructor).
    apply Hfound in Hin as [Hm Hk]. split; [exact Hm|]. split; [exact Hk|].
    intros other key Hother Hmo.
    assert (Hino : other ∈ row :: rest).
    { rewrite Hperm. apply Hfound. eauto. }
    apply StronglySorted_inv in Hsorted as [_ Hall].
    apply elem_of_cons in Hino as [->|Hino].
    + destruct (ratedAbove row row) eqn:Hrr; [|done].
      by rewrite (ratedAbove_asym row row Hrr) in Hrr.
    + by apply (proj1 (Forall_forall _ _) Hall).
  - intros other key Hother Hmo.
    assert (Hin : other ∈ sortBy ratedAbove found).
    { rewrite Hperm. apply Hfound. eauto. }
    destruct (sortBy ratedAbove found); [by apply not_elem_of_nil in Hin|]. by eexists.
Qed.

(** X22. The row the reconciliation takes from the cache is a stored row
    whose title matches the candidate and that no other matching row is
    rated above; and whenever some stored row matches, a row is found. *)
Theorem selectByTitle_best (d : Db) (t : JsValue) :
  (∀ row, selectByTitle titleLike d t = Some row →
     titleMatches titleLike t row = true
     ∧ (∃ key, findById d key = Some row)
     ∧ ∀ other key, findById d key = Some other →
         titleMatches titleLike t other = true → ratedAbove other row = false)
  ∧ (∀ other key, findById d key = Some other →
       titleMatches titleLike t other = true →
       is_Some (selectByTitle titleLike d t)).
Proof. intros. eapply selectByTitle_best_facts; eassumption. Qed.

End QueryFacts.

(** X23. The cache query of the trending route returns at most twenty rows,
    each a stored row rated at least the threshold (a row without rating
    never qualifies), ordered by rating and, among equal ratings, by time of
    writing, both descending. *)
Theorem trendingCache_ordered (tenths : Z) (d : Db) :
  (length (trendingCache tenths d) ≤ 20)%nat
  ∧ Forall (λ r, ratedAtLeast tenths r = true ∧ ∃ key, findById d key = Some r)
      (trendingCache tenths d)
  ∧ StronglySorted notAfter (trendingCache tenths d)
  ∧ ((length (List.filter (ratedAtLeast tenths) (rowsOf d)) ≤ 20)%nat →
     trendingCache tenths d ≡ₚ List.filter (ratedAtLeast tenths) (rowsOf d)).
Proof.
  unfold trendingCache.
  set (found := List.filter (ratedAtLeast tenths) (rowsOf d)).
  split; [|split; [|split]].
  - rewrite length_take. lia.
  - apply Forall_take. rewrite (sortBy_perm trendsBefore found).
    apply Forall_forall. intros r [Hm Hr]%elem_of_filter_list.
    split; [exact Hm|]. by apply elem_of_rowsOf.
  - apply StronglySorted_take.
    apply (sortBy_sorted trendsBefore trendsBefore_asym trendsBefore_negtrans).
  - intros Hlen. rewrite take_ge; [apply sortBy_perm|].
    by rewrite (Permutation_length (sortBy_perm trendsBefore found)).
Qed.

(** ** Which replies are cached *)








(** ** Reconciliation fills the cache *)

Section ReconcileCaches.

Variable provider : nat → Request → Outcome.
Variable OMDB_API_KEY : JsValue.
Variable titleLike : JsValue → jsstring → bool.

Local Abbreviation step := (detailsFor provider OMDB_API_KEY titleLike).


End ReconcileCaches.

(** ** The trending route (movies.js) *)

Section TrendingFacts.

Variable provider : nat → Request → Outcome.
Variable OMDB_API_KEY : JsValue.

Local Abbreviation loop := (trendingLoop provider OMDB_API_KEY).
Local Abbreviation request t := (mkRequest true (trendingParams OMDB_API_KEY t) 5000).

Lemma trendingLoop_acc now titles (w : World) movies :
  loop now titles w movies
  = (movies ++ (loop now titles w []).1, (loop now titles w []).2).
Proof.
  revert w movies. induction titles as [|t rest IH]; intros w movies; cbn [trendingLoop].
  - by rewrite app_nil_r.
  - destruct (fetchOmdb_default provider (trendingParams OMDB_API_KEY t) w)
      as [[[data|]|e] w1]; try apply IH.
    case_bool_decide; [|apply IH].
    rewrite (IH _ (movies ++ _)), (IH _ ([] ++ _)). cbn [fst snd].
    by rewrite <- app_assoc.
Qed.

(** What the route leaves behind. *)
Lemma trendingLoop_footprint now titles (w : World) :
  (∃ reqs, requests (loop now titles w []).2 = requests w ++ reqs
           ∧ (length reqs ≤ 3 * length titles)%nat
           ∧ Forall (λ r, https r = true ∧ timeout r = 5000) reqs)
  ∧ ai_recommendations_cache (db (loop now titles w []).2)
    = ai_recommendations_cache (db w)
  ∧ (∀ key, is_Some (findById (db w) key) →
            is_Some (findById (db (loop now titles w []).2) key)).
Proof.
  revert w. induction titles as [|t rest IH]; intros w; cbn [trendingLoop].
  - split; [|done]. exists []. rewrite app_nil_r. split; [done|]. split; [simpl; lia|constructor].
  - destruct (attempts_shape provider 3 1 3 (trendingParams OMDB_API_KEY t) 5000 w)
      as (n & Hn & _ & Hw); [lia|].
    unfold fetchOmdb_default, fetchOmdb.
    destruct (attempts provider 3 1 3 (trendingParams OMDB_API_KEY t) 5000 w)
      as [res w1]. simpl in Hw. subst w1.
    set (w1 := mkWorld (db w) (requests w ++ replicate n (request t)) _).
    assert (Hjoin : ∀ w2 : World,
              requests w2 = requests w1 →
              ai_recommendations_cache (db w2) = ai_recommendations_cache (db w) →
              (∀ key, is_Some (findById (db w) key) → is_Some (findById (db w2) key)) →
              (∃ reqs, requests (loop now rest w2 []).2 = requests w ++ reqs
                       ∧ (length reqs ≤ 3 * S (length rest))%nat
                       ∧ Forall (λ r, https r = true ∧ timeout r = 5000) reqs)
              ∧ ai_recommendations_cache (db (loop now rest w2 []).2)
                = ai_recommendations_cache (db w)
              ∧ (∀ key, is_Some (findById (db w) key) →
                        is_Some (findById (db (loop now rest w2 []).2) key))).
    { intros w2 Hreq Hai Hkeep.
      destruct (IH w2) as ((r2 & Hr2 & Hl2 & Hf2) & Ha2 & Hk2).
      split; [|split].
      - exists (replicate n (request t) ++ r2).
        rewrite Hr2, Hreq. simpl. rewrite <- app_assoc. split; [done|].
        split; [rewrite length_app, length_replicate; lia|].
        apply Forall_app. split; [|exact Hf2]. by apply Forall_replicate.
      - by rewrite Ha2.
      - intros key Hkey. by apply Hk2, Hkeep. }
    destruct res as [[data|]|e]; try (by apply Hjoin).
    case_bool_decide; [|by apply Hjoin].
    rewrite trendingLoop_acc. cbn [fst snd].
    destruct (cacheMovie_frame_facts now (formatMovieData_movies data) (db w))
      as (Hai & _ & Hkeep & _).
    by apply Hjoin.
Qed.

(** X26. The trending route sends at most thirty requests (three attempts
    for each of the ten titles), all through fetchOmdb; it never touches the
    recommendation cache and never removes a row of the movie cache. When the
    client does not force a refresh and the cache holds ten rows rated 7.0 or
    more, the route answers with those rows and does nothing else. *)
Theorem trendingRoute_footprint now (force source : Field) (w : World) :
  ((∃ reqs, requests (trendingRoute provider OMDB_API_KEY now force source w).2
            = requests w ++ reqs
            ∧ (length reqs ≤ 30)%nat
            ∧ Forall (λ r, https r = true ∧ timeout r = 5000) reqs)
   ∧ ai_recommendations_cache (db (trendingRoute provider OMDB_API_KEY now force source w).2)
     = ai_recommendations_cache (db w)
   ∧ (∀ key, is_Some (findById (db w) key) →
        is_Some (findById (db (trendingRoute provider OMDB_API_KEY now force source w).2)
                   key)))
  ∧ (forceOmdb force source = false →
     (10 ≤ length (trendingCache 70 (db w)))%nat →
     trendingRoute provider OMDB_API_KEY now force source w
     = (TrendingFromCache (trendingCache 70 (db w)), w)).
Proof.
  split.
  - unfold trendingRoute.
    destruct (negb (forceOmdb force source) && _).
    + split; [|done]. exists []. rewrite app_nil_r.
      split; [done|]. split; [simpl; lia|constructor].
    + pose proof (trendingLoop_footprint now popularTitles w) as Hfp.
      destruct (loop now popularTitles w []) as [movies w'].
      assert (Hsame : ∀ r : TrendingReply * World, r.2 = w' → r.2 = w') by done.
      destruct movies; [destruct (trendingCache 60 (db w'))|]; exact Hfp.
  - intros Hforce Hlen. unfold trendingRoute. rewrite Hforce.
    apply Nat.leb_le in Hlen. by rewrite Hlen.
Qed.

End TrendingFacts.

Section TrendingStateless.

Variable answer : Request → Outcome.
Variable OMDB_API_KEY : JsValue.

Local Abbreviation provider := (λ _ : nat, answer).

Lemma fetch_stateless params (w : World) :
  (fetchOmdb_default provider params w).1
  = match answer (mkRequest true params 5000) with
    | Replied data => Returned (Some data)
    | Threw e => Thrown e
    end.
Proof.
  destruct (answer (mkRequest true params 5000)) as [e|data] eqn:Ha.
  - unfold fetchOmdb_default, fetchOmdb.
    rewrite (attempts_all_fail provider 2 1 3 params 5000 w e); [done|lia| |exact Ha].
    intros i _. by exists e.
  - unfold fetchOmdb_default, fetchOmdb.
    rewrite (attempts_first_success provider 0 3 1 3 params 5000 w data);
      [done|lia|lia| |exact Ha].
    intros i Hi. lia.
Qed.

Lemma omap_shorter {A B : Type} (f : A → option B) (l : list A) :
  (length (omap f l) ≤ length l)%nat.
Proof.
  induction l as [|x l IH]; [done|]. cbn [omap list_omap].
  destruct (f x); simpl; fold (omap f l); lia.
Qed.

Lemma trendingLoop_stateless now titles (w : World) :
  (trendingLoop provider OMDB_API_KEY now titles w []).1
  = omap (resolved answer OMDB_API_KEY) titles.
Proof.
  revert w. induction titles as [|t rest IH]; intros w; [done|].
  cbn [trendingLoop].
  pose proof (fetch_stateless (trendingParams OMDB_API_KEY t) w) as Hf.
  assert (Hcons : omap (resolved answer OMDB_API_KEY) (t :: rest)
                  = match resolved answer OMDB_API_KEY t with
                    | Some movie => movie :: omap (resolved answer OMDB_API_KEY) rest
                    | None => omap (resolved answer OMDB_API_KEY) rest
                    end) by reflexivity.
  rewrite Hcons. unfold resolved at 1.
  destruct (fetchOmdb_default provider (trendingParams OMDB_API_KEY t) w) as [res w1].
  simpl in Hf. subst res.
  destruct (answer (mkRequest true (trendingParams OMDB_API_KEY t) 5000)) as [e|data];
    [apply IH|].
  case_bool_decide; [|apply IH].
  rewrite trendingLoop_acc. cbn [fst]. by rewrite IH.
Qed.

(** X27. Against a provider that answers a given request the same way every
    time, a forced refresh returns exactly the titles of the list that the
    provider resolves, normalized, in the order of the list: as many movies
    as there are resolved titles (seven of ten resolved give seven movies),
    a title that fails or is unknown being skipped. *)
Theorem trendingRoute_resolved now (force source : Field) (w : World) :
  forceOmdb force source = true →
  omap (resolved answer OMDB_API_KEY) popularTitles ≠ [] →
  (trendingRoute provider OMDB_API_KEY now force source w).1
  = TrendingFromOmdb (omap (resolved answer OMDB_API_KEY) popularTitles)
  ∧ (length (omap (resolved answer OMDB_API_KEY) popularTitles) ≤ 10)%nat.
Proof.
  intros Hforce Hne. split.
  - unfold trendingRoute. rewrite Hforce. cbn [negb andb].
    pose proof (trendingLoop_stateless now popularTitles w) as Hl.
    destruct (trendingLoop provider OMDB_API_KEY now popularTitles w []) as [movies w'].
    cbn [fst] in Hl. subst movies.
    by destruct (omap (resolved answer OMDB_API_KEY) popularTitles).
  - apply (omap_shorter (resolved answer OMDB_API_KEY) popularTitles).
Qed.

End TrendingStateless.

Section TrendingOutage.

Variable provider : nat → Request → Outcome.
Variable OMDB_API_KEY : JsValue.

Hypothesis outage : ∀ n req, ∃ e, provider n req = Threw e.

Lemma trendingLoop_outage now titles (w : World) :
  (trendingLoop provider OMDB_API_KEY now titles w []).1 = []
  ∧ db (trendingLoop provider OMDB_API_KEY now titles w []).2 = db w
  ∧ length (requests (trendingLoop provider OMDB_API_KEY now titles w []).2)
    = (length (requests w) + 3 * length titles)%nat
  ∧ slept (trendingLoop provider OMDB_API_KEY now titles w []).2
    = slept w ++ (titles ≫= λ _, [500; 1000]).
Proof.
  revert w. induction titles as [|t rest IH]; intros w; cbn [trendingLoop].
  - simpl. by rewrite Nat.add_0_r, app_nil_r.
  - destruct (outage (length (requests w) + 2)
                (mkRequest true (trendingParams OMDB_API_KEY t) 5000)) as [e He].
    unfold fetchOmdb_default, fetchOmdb.
    rewrite (attempts_all_fail provider 2 1 3 _ 5000 w e); [|lia| |exact He].
    + destruct (IH (mkWorld (db w)
                      (requests w ++ replicate 3
                         (mkRequest true (trendingParams OMDB_API_KEY t) 5000))
                      (slept w ++ ((λ i, 500 * N.of_nat i) <$> seq 1 2))))
        as (Hm & Hd & Hr & Hs).
      split; [exact Hm|]. split; [exact Hd|]. split.
      * rewrite Hr. simpl. rewrite length_app. simpl. lia.
      * rewrite Hs. simpl. by rewrite <- app_assoc.
    + intros i _. apply outage.
Qed.

(** X28. When the provider cannot be reached at all, the trending route
    gives up on every title after three attempts (thirty requests, two
    pauses of 500 and 1000 ms per title), writes nothing, and falls back to
    the cache with the lower threshold 6.0: it answers with those rows, or
    with an empty list when there are none. This also holds when the client
    forced a refresh. *)
Theorem trendingRoute_outage now (force source : Field) (w : World) :
  forceOmdb force source = true ∨ (length (trendingCache 70 (db w)) < 10)%nat →
  (trendingRoute provider OMDB_API_KEY now force source w).1
  = match trendingCache 60 (db w) with
    | [] => TrendingFromOmdb []
    | cachedFallback => TrendingCacheFallback cachedFallback
    end
  ∧ db (trendingRoute provider OMDB_API_KEY now force source w).2 = db w
  ∧ length (requests (trendingRoute provider OMDB_API_KEY now force source w).2)
    = (length (requests w) + 30)%nat
  ∧ length (slept (trendingRoute provider OMDB_API_KEY now force source w).2)
    = (length (slept w) + 20)%nat.
Proof.
  intros Hpath. unfold trendingRoute.
  assert (negb (forceOmdb force source) && (10 <=? length (trendingCache 70 (db w)))%nat
          = false) as ->.
  { destruct Hpath as [->|Hlt]; [done|].
    apply andb_false_iff. right. apply Nat.leb_gt. lia. }
  destruct (trendingLoop_outage now popularTitles w) as (Hm & Hd & Hr & Hs).
  destruct (trendingLoop provider OMDB_API_KEY now popularTitles w []) as [movies w'].
  simpl in Hm, Hd, Hr, Hs. subst movies. rewrite Hd.
  assert (Hlen : length (slept w') = (length (slept w) + 20)%nat).
  { rewrite Hs, length_app. reflexivity. }
  destruct (trendingCache 60 (db w)); simpl; rewrite ?Hd; done.
Qed.

End TrendingOutage.

(** ** The properties above at concrete inputs *)


Lemma getMovieDetails_sound_witness :
  ∃ n data,
    reliable n (mkRequest true (detailsParams (JStr (lit "k")) (lit "tt1375666")) 5000)
    = Replied data
    ∧ Response data = Some (lit "True")
    ∧ formatMovieData_movies completeReply = formatMovieData_movies data.
Proof.
  apply (proj2 (getMovieDetails_sound reliable (JStr (lit "k")) (lit "tt1375666") emptyWorld)).
  reflexivity.
Defined.



Lemma accepted_capitals : accepted (lit "  Dark THRILLER ").
Proof. split; [done | vm_compute; lia]. Qed.

Lemma postAI_round_trip_witness :
  (postAI lowerAscii (freshAnswer "first") (lit "dark thriller") 0 5 emptyDb).1
  = ServedFromAi (responseOf (JStr (lit "first")) [JStr (lit "first")] (lit "dark thriller"))
  ∧ postAI lowerAscii (freshAnswer "second") (lit "  Dark THRILLER ") 3600 3605
      (postAI lowerAscii (freshAnswer "first") (lit "dark thriller") 0 5 emptyDb).2
    = (ServedFromCache
         (mkCachedReply [JStr (lit "first")] (JStr (lit "dark thriller")) false),
       (postAI lowerAscii (freshAnswer "first") (lit "dark thriller") 0 5 emptyDb).2).
Proof.
  apply (postAI_round_trip lowerAscii (freshAnswer "first") (freshAnswer "second")
           (lit "dark thriller") (lit "  Dark THRILLER ") 0 5 3600 3605 emptyDb emptyDb).
  - apply accepted_dark_thriller.
  - apply accepted_capitals.
  - reflexivity.
  - apply lookup_empty.
  - reflexivity.
  - reflexivity.
  - reflexivity.
Defined.

Lemma postAI_rejects_witness :
  (postAI lowerAscii (freshAnswer "first") [] 0 5 emptyDb).2 = emptyDb.
Proof.
  apply (proj2 (postAI_rejects lowerAscii (freshAnswer "first") [] 0 5 emptyDb)).
  left. reflexivity.
Defined.

Lemma clearCache_invisible_witness :
  get (clearCache (DAY + 1) (oneRow (lit "3f5e") garbage)) (lit "3f5e") (DAY + 2)
  = get (oneRow (lit "3f5e") garbage) (lit "3f5e") (DAY + 2)
  ∧ movies_cache (clearCache (DAY + 1) (oneRow (lit "3f5e") garbage))
    = movies_cache (oneRow (lit "3f5e") garbage).
Proof. apply clearCache_invisible. lia. Defined.

Lemma clearCache_then_put_witness :
  (put (DAY + 5) (lit "3f5e") (lit "dark thriller") (RawValue (JArr []))
     (clearCache (DAY + 1) (oneRow (lit "3f5e") garbage))).2 = false
  ∧ get (put (DAY + 5) (lit "3f5e") (lit "dark thriller") (RawValue (JArr []))
           (clearCache (DAY + 1) (oneRow (lit "3f5e") garbage))).1 (lit "3f5e") (DAY + 6)
    = Hit (replyFromRow (mkAiRow (lit "dark thriller") (RawValue (JArr [])) (DAY + 5)
                           (Some (DAY + 5 + DAY)%Z))).
Proof.
  apply (clearCache_then_put (DAY + 1) (DAY + 5) (DAY + 6) DAY
           (oneRow (lit "3f5e") garbage) (lit "3f5e") (lit "dark thriller")
           (RawValue (JArr [])) (mkAiRow (lit "dark thriller") garbage 0 (Some DAY))).
  - apply lookup_singleton_eq.
  - reflexivity.
  - lia.
  - unfold DAY. lia.
Defined.


Lemma trendingRoute_footprint_witness :
  trendingRoute unreachable (JStr (lit "k")) 0 None None (mkWorld tenRows [] [])
  = (TrendingFromCache (trendingCache 70 tenRows), mkWorld tenRows [] []).
Proof.
  apply (proj2 (trendingRoute_footprint unreachable (JStr (lit "k")) 0 None None
                  (mkWorld tenRows [] []))).
  - reflexivity.
  - vm_compute. lia.
Defined.

Lemma trendingRoute_resolved_witness :
  (trendingRoute (λ _, reliable 0%nat) (JStr (lit "k")) 0 (Some (lit "1")) None emptyWorld).1
  = TrendingFromOmdb (omap (resolved (reliable 0%nat) (JStr (lit "k"))) popularTitles)
  ∧ (length (omap (resolved (reliable 0%nat) (JStr (lit "k"))) popularTitles) ≤ 10)%nat.
Proof.
  apply (trendingRoute_resolved (reliable 0%nat) (JStr (lit "k")) 0 (Some (lit "1")) None
           emptyWorld).
  - reflexivity.
  - vm_compute. discriminate.
Defined.

Lemma trendingRoute_outage_witness :
  (trendingRoute unreachable (JStr (lit "k")) 0 (Some (lit "true")) None emptyWorld).1
  = match trendingCache 60 (db emptyWorld) with
    | [] => TrendingFromOmdb []
    | cachedFallback => TrendingCacheFallback cachedFallback
    end
  ∧ db (trendingRoute unreachable (JStr (lit "k")) 0 (Some (lit "true")) None emptyWorld).2
    = db emptyWorld
  ∧ length (requests (trendingRoute unreachable (JStr (lit "k")) 0 (Some (lit "true")) None
                        emptyWorld).2)
    = (length (requests emptyWorld) + 30)%nat
  ∧ length (slept (trendingRoute unreachable (JStr (lit "k")) 0 (Some (lit "true")) None
                     emptyWorld).2)
    = (length (slept emptyWorld) + 20)%nat.
Proof.
  apply (trendingRoute_outage unreachable (JStr (lit "k"))).
  - intros n req. exists (lit "ETIMEDOUT"). reflexivity.
  - left. reflexivity.
Defined.

(** ** The shapes of a cached payload *)

Lemma fromParsed_unwrapped v : fromParsed v = unwrapped v.
Proof.
  unfold fromParsed, unwrapped.
  destruct v as [| |b|n|s|l|props]; try done.
  - by destruct b.
  - by destruct (truthy (JNum n)).
  - by destruct (truthy (JStr s)).
Qed.

(** X29. How the reader unwraps a stored payload. A payload handed back as
    text is parsed and then unwrapped: an array is served as it is, an object
    gives the array under [recommendations] or else the one under [data],
    anything else gives an empty list. A payload handed back as an object is
    not parsed: only its array [recommendations] is served, an array under
    [data] is not. Neither case logs a warning. *)
Theorem cached_payload_shapes (row : AiRow) :
  (∀ s v, recommendations row = RawValue (JStr s) → JSON_parse s = Some v →
     cachedRecommendations (replyFromRow row) = unwrapped v
     ∧ warned (replyFromRow row) = false)
  ∧ (∀ props, recommendations row = RawValue (JObj props) →
     ownProp props (lit "toString") = None →
     cachedRecommendations (replyFromRow row)
     = default [] (propArray (JObj props) "recommendations")
     ∧ warned (replyFromRow row) = false).
Proof.
  split.
  - intros s v Hraw Hp. unfold replyFromRow, parseCached. rewrite Hraw. cbn [readRaw].
    rewrite Hp. cbn [cachedRecommendations warned]. split; [|done].
    unfold normalize. rewrite fromParsed_unwrapped. cbn [fromRaw].
    by destruct (unwrapped v).
  - intros props Hraw Hts. unfold replyFromRow, parseCached. rewrite Hraw. cbn [readRaw].
    rewrite Hts. cbn [cachedRecommendations warned]. split; [|done].
    reflexivity.
Qed.

Lemma cached_payload_shapes_witness :
  cachedRecommendations
    (replyFromRow (mkAiRow (lit "p") (RawValue (JObj [(lit "data", JArr [JNull])])) 0 None))
  = default [] (propArray (JObj [(lit "data", JArr [JNull])]) "recommendations")
  ∧ warned
      (replyFromRow (mkAiRow (lit "p") (RawValue (JObj [(lit "data", JArr [JNull])])) 0 None))
    = false.
Proof.
  apply (proj2 (cached_payload_shapes
                  (mkAiRow (lit "p") (RawValue (JObj [(lit "data", JArr [JNull])])) 0 None))
           [(lit "data", JArr [JNull])]); reflexivity.
Defined.

(** An object wrapping [data] is served empty when it comes back as an
    object, and unwrapped when it comes back as text. *)
Example data_wrapper_two_ways :
  cachedRecommendations
    (replyFromRow (mkAiRow (lit "p") (RawValue (JObj [(lit "data", JArr [JNull])])) 0 None))
  = []
  ∧ cachedRecommendations
      (replyFromRow
         (mkAiRow (lit "p")
            (RawValue (JStr (lit "{" ++ [34] ++ lit "data" ++ [34] ++ lit ":[null]}")))
            0 None))
    = [JNull].
Proof. vm_compute. done. Qed.

(** ** How provider failures are reported *)

Ltac by_status :=
  repeat match goal with
         | |- context [match ?p with _ => _ end] => is_var p; destruct p
         end;
  vm_compute; intuition congruence.

Lemma describe_status (err : AxiosError) (code : N) :
  status err = Some code →
  (errorOf (describe (Http err)) = lit "AI service unavailable"
   ↔ code = 500 ∨ code = 502 ∨ code = 503)
  ∧ (errorOf (describe (Http err)) = lit "Authentication failed" ↔ code = 401)
  ∧ (errorOf (describe (Http err)) = lit "Rate limit exceeded" ↔ code = 429)
  ∧ (errorOf (describe (Http err)) = lit "Invalid request format or parameters"
     ↔ code = 400).
Proof.
  intros Hs. unfold describe. rewrite Hs. clear Hs.
  by_status.
Qed.

(** X30. How a failed call to the provider is reported. With a key set and a
    call that failed with HTTP status [code], the generation fails, and its
    error text is [AI service unavailable] exactly for 500, 502 and 503,
    [Authentication failed] exactly for 401, [Rate limit exceeded] exactly
    for 429 and [Invalid request format or parameters] exactly for 400: any
    other status, 504 or 404 say, is reported under none of these. Without a
    key the provider is not called at all: the result is the same failure
    whatever the provider would have answered. *)
Theorem generation_reports_status
    (key : JsValue) (post post' : jsstring → PostOutcome) (prompt : jsstring)
    (err : AxiosError) (code : N) :
  (truthy key = true → post prompt = PostThrew err → status err = Some code →
     failed (generateAIRecommendations key post prompt) = true
     ∧ (errorOf (generateAIRecommendations key post prompt) = lit "AI service unavailable"
        ↔ code = 500 ∨ code = 502 ∨ code = 503)
     ∧ (errorOf (generateAIRecommendations key post prompt) = lit "Authentication failed"
        ↔ code = 401)
     ∧ (errorOf (generateAIRecommendations key post prompt) = lit "Rate limit exceeded"
        ↔ code = 429)
     ∧ (errorOf (generateAIRecommendations key post prompt)
        = lit "Invalid request format or parameters" ↔ code = 400))
  ∧ (truthy key = false →
     generateAIRecommendations key post prompt = generateAIRecommendations key post' prompt
     ∧ failed (generateAIRecommendations key post prompt) = true).
Proof.
  split.
  - intros Hkey Hpost Hs. unfold generateAIRecommendations. rewrite Hkey, Hpost.
    cbn [negb]. split; [|exact (describe_status err code Hs)].
    unfold describe. destruct (status err) as [n|]; [|done].
    repeat match goal with
           | |- context [match ?p with _ => _ end] => is_var p; destruct p
           end; reflexivity.
  - intros Hkey. unfold generateAIRecommendations. rewrite Hkey. done.
Qed.

Lemma generation_reports_status_witness :
  failed (generateAIRecommendations (JStr (lit "k")) (λ _, PostThrew (httpError 504)) (lit "p"))
  = true
  ∧ (errorOf (generateAIRecommendations (JStr (lit "k")) (λ _, PostThrew (httpError 504))
                (lit "p"))
     = lit "AI service unavailable" ↔ 504 = 500 ∨ 504 = 502 ∨ 504 = 503).
Proof.
  destruct (proj1 (generation_reports_status (JStr (lit "k"))
                     (λ _, PostThrew (httpError 504)) (λ _, PostThrew (httpError 504))
                     (lit "p") (httpError 504) 504)) as (Hf & Hu & _);
    [reflexivity | reflexivity | reflexivity |].
  split; [exact Hf | exact Hu].
Defined.
